(** * Dependency-graph engine of [main.py]

    A shallow embedding of the package-dependency tool: the two dependency
    sources (test fixture and package index text), the bounded iterative
    depth-first Builder ([build_graph]), the topological Sequencer
    ([compute_load_order]) and the Mermaid renderer ([graph_to_mermaid]),
    then the pure parts around them ([validate_package], the address
    built by [download_packages], the stages of [main]), followed by the
    properties established about them.

    Conventions of the embedding.
    - A Python [str] is a [string]; its characters are the code points
      below 256.
    - A Python [dict] is an association list in insertion order with
      unique keys ([PyDict.set] updates in place or appends).
    - A Python [set] is a duplicate-free list; only membership, [add],
      [remove] and [discard] are used by the program.
    - A Python list used as a stack ([append] / [pop]) is a list whose
      head is the top of the stack, i.e. the last element of the Python
      list.
    - [print] calls that only decorate the output are left out; the cycle
      notifications of the Builder are kept as a log in its state, and
      [sys.exit(1)] after the "not found" message is the absence of a
      result. *)

From Stdlib Require Import List String Ascii Bool Arith Lia Permutation.
From Stdlib Require Import Relations.Relation_Operators Relations.Operators_Properties.
Import ListNotations.
Local Open Scope string_scope.
Local Open Scope nat_scope.
Local Open Scope list_scope.

(* ===================================================================== *)
(** * Python string primitives *)
(* ===================================================================== *)

Module PyStr.

(** The characters used as literals in the source. *)
Definition nl : string := String (ascii_of_nat 10) EmptyString.
Definition dquote : string := String (ascii_of_nat 34) EmptyString.

Definition between (lo hi n : nat) : bool := (lo <=? n) && (n <=? hi).

(** [str.isspace] on one character (code points below 256). *)
Definition isspace (c : ascii) : bool :=
  let n := nat_of_ascii c in
  between 9 13 n || between 28 32 n || (n =? 133) || (n =? 160).

(** [str.isdigit] on one character (code points below 256). *)
Definition isdigit (c : ascii) : bool :=
  let n := nat_of_ascii c in
  between 48 57 n || (n =? 178) || (n =? 179) || (n =? 185).

(** The class [[0-9A-Za-z_]] of the renderer's regular expression. *)
Definition is_word (c : ascii) : bool :=
  let n := nat_of_ascii c in
  between 48 57 n || between 65 90 n || between 97 122 n || (n =? 95).

Definition is_empty (s : string) : bool :=
  match s with EmptyString => true | _ => false end.

Definition snoc (s : string) (c : ascii) : string := (s ++ String c EmptyString)%string.

(** [s.startswith(p)] *)
Definition startswith (s p : string) : bool := prefix p s.

(** [c in s] for a one-character string [c]. *)
Fixpoint contains (c : ascii) (s : string) : bool :=
  match s with
  | EmptyString => false
  | String x s' => Ascii.eqb x c || contains c s'
  end.

Fixpoint lstrip_by (p : ascii -> bool) (s : string) : string :=
  match s with
  | EmptyString => EmptyString
  | String c s' => if p c then lstrip_by p s' else s
  end.

Fixpoint rstrip_by (p : ascii -> bool) (s : string) : string :=
  match s with
  | EmptyString => EmptyString
  | String c s' =>
      match rstrip_by p s' with
      | EmptyString => if p c then EmptyString else String c EmptyString
      | r => String c r
      end
  end.

(** [s.strip()] and [s.strip(chars)] for a one-character [chars]. *)
Definition strip (s : string) : string := rstrip_by isspace (lstrip_by isspace s).
Definition strip_char (c : ascii) (s : string) : string :=
  rstrip_by (Ascii.eqb c) (lstrip_by (Ascii.eqb c) s).

(** [s.split(sep)] for a non-empty separator: the text is scanned from the
    left, [skip] counts the characters of a separator still to be dropped
    and [cur] is the piece being collected. *)
Fixpoint split_go (sep s : string) (skip : nat) (cur : string) : list string :=
  match s with
  | EmptyString => [cur]
  | String c s' =>
      match skip with
      | S k => split_go sep s' k cur
      | O =>
          if prefix sep s
          then cur :: split_go sep s' (String.length sep - 1) EmptyString
          else split_go sep s' 0 (snoc cur c)
      end
  end.

Definition split (sep s : string) : list string := split_go sep s 0 EmptyString.

(** [s.split(sep, 1)] for a one-character separator. *)
Fixpoint split1_go (c : ascii) (s cur : string) : list string :=
  match s with
  | EmptyString => [cur]
  | String x s' => if Ascii.eqb x c then [cur; s'] else split1_go c s' (snoc cur x)
  end.

Definition split1 (c : ascii) (s : string) : list string := split1_go c s EmptyString.

(** [s.split()]: pieces between runs of white space, no empty piece. *)
Fixpoint split_ws_go (s cur : string) : list string :=
  match s with
  | EmptyString => if is_empty cur then [] else [cur]
  | String c s' =>
      if isspace c
      then (if is_empty cur then split_ws_go s' EmptyString
            else cur :: split_ws_go s' EmptyString)
      else split_ws_go s' (snoc cur c)
  end.

Definition split_ws (s : string) : list string := split_ws_go s EmptyString.

(** [s.replace(old, new)] for a non-empty [old]. *)
Fixpoint replace_go (old new s : string) (skip : nat) : string :=
  match s with
  | EmptyString => EmptyString
  | String c s' =>
      match skip with
      | S k => replace_go old new s' k
      | O =>
          if prefix old s
          then (new ++ replace_go old new s' (String.length old - 1))%string
          else String c (replace_go old new s' 0)
      end
  end.

Definition replace (old new s : string) : string := replace_go old new s 0.

(** [sep.join(parts)] *)
Fixpoint join (sep : string) (parts : list string) : string :=
  match parts with
  | [] => EmptyString
  | [p] => p
  | p :: rest => (p ++ sep ++ join sep rest)%string
  end.

(** Iterating over a text file opened in text mode: the lines with their
    newline kept ([text] is the content after newline translation). *)
Fixpoint lines_go (s cur : string) : list string :=
  match s with
  | EmptyString => if is_empty cur then [] else [cur]
  | String c s' =>
      if Ascii.eqb c (ascii_of_nat 10)
      then snoc cur c :: lines_go s' EmptyString
      else lines_go s' (snoc cur c)
  end.

Definition file_lines (text : string) : list string := lines_go text EmptyString.

(** [re.sub(r'[^0-9A-Za-z_]', '_', s)] *)
Fixpoint sub_non_word (s : string) : string :=
  match s with
  | EmptyString => EmptyString
  | String c s' => String (if is_word c then c else "_"%char) (sub_non_word s')
  end.

End PyStr.

(* ===================================================================== *)
(** * Python sets and dicts keyed by strings *)
(* ===================================================================== *)

Module PySet.

Definition t := list string.

Definition empty : t := [].

Definition mem (x : string) (s : t) : bool := existsb (String.eqb x) s.

Definition add (x : string) (s : t) : t := if mem x s then s else s ++ [x].

(** [s.discard(x)] *)
Definition discard (x : string) (s : t) : t := List.remove string_dec x s.

(** [s.remove(x)]: [None] stands for the [KeyError] of a missing element. *)
Definition remove (x : string) (s : t) : option t :=
  if mem x s then Some (discard x s) else None.

End PySet.

Module PyDict.

Section Dict.
Context {V : Type}.

Definition t := list (string * V).

Fixpoint get (d : t) (k : string) : option V :=
  match d with
  | [] => None
  | (k', v) :: d' => if String.eqb k k' then Some v else get d' k
  end.

(** [d.get(k, default)] *)
Definition get_default (d : t) (k : string) (default : V) : V :=
  match get d k with Some v => v | None => default end.

(** [d[k] = v]: an existing key keeps its place, a new one goes last. *)
Fixpoint set (d : t) (k : string) (v : V) : t :=
  match d with
  | [] => [(k, v)]
  | (k', v') :: d' =>
      if String.eqb k k' then (k', v) :: d' else (k', v') :: set d' k v
  end.

Definition keys (d : t) : list string := map fst d.
Definition values (d : t) : list V := map snd d.

End Dict.
Arguments t : clear implicits.

End PyDict.

Definition DependencyGraph := PyDict.t (list string).

(* ===================================================================== *)
(** * Dependency sources *)
(* ===================================================================== *)

Module Source.
Import PyStr.

(** ** Test mode: the fixture file *)

(** The body of the loop of [load_test_graph] for one line of the file.
    The last branch is the failed unpacking of [line.split(":", 1)]; it is
    never taken when the line has a colon ([split1_two] below). *)
Definition load_test_graph_line (graph : DependencyGraph) (line : string)
  : DependencyGraph :=
  if negb (contains ":" line) then graph
  else
    match split1 ":" line with
    | [pkg; deps] =>
        let pkg := strip pkg in
        let deps := if is_empty (strip deps) then [] else split_ws (strip deps) in
        PyDict.set graph pkg deps
    | _ => graph
    end.

(** [load_test_graph], on the text of the file at [path]. *)
Definition load_test_graph (text : string) : DependencyGraph :=
  fold_left load_test_graph_line (file_lines text) [].

(** [get_deps] of test mode: [full_graph.get(p, [])]. *)
Definition test_get_deps (full_graph : DependencyGraph) (p : string)
  : option (list string) :=
  Some (PyDict.get_default full_graph p []).

(** ** Live mode: the package index text *)

(** The list comprehension over [raw.split(",")]. *)
Definition parse_depends (line : string) : list string :=
  let raw := strip (replace "Depends: " EmptyString line) in
  map (fun d => strip_char "," (hd EmptyString (split " " d))) (split "," raw).

(** The inner loop over the lines of the matching block; falling out of
    it is [return []]. *)
Fixpoint block_dependencies (lines : list string) : list string :=
  match lines with
  | [] => []
  | line :: rest =>
      if startswith line "Depends: " then parse_depends line
      else block_dependencies rest
  end.

(** The outer loop over the blocks; falling out of it is the "not found"
    message followed by [sys.exit(1)], here [None]. *)
Fixpoint find_block (package : string) (blocks : list string)
  : option (list string) :=
  match blocks with
  | [] => None
  | block :: rest =>
      if startswith block ("Package: " ++ package)%string
      then Some (block_dependencies (split nl block))
      else find_block package rest
  end.

Definition extract_dependencies (package packages_text : string)
  : option (list string) :=
  find_block package (split (nl ++ nl)%string packages_text).

(** ** The closure [get_deps] handed to the Builder

    [get_deps] is a local function of [build_graph]; in live mode it keeps
    a memo between its calls.  A source is that function together with
    what it remembers: [store0] is the memory when the Builder starts, and
    a call returns the dependency list and the memory after the call, or
    [None] when the run is ended with the "not found" message. *)
Record t : Type := mk {
  store : Type;
  store0 : store;
  get_deps : store -> string -> option (list string * store)
}.

(** Test mode: [def get_deps(p): return full_graph.get(p, [])]. *)
Definition test_source (full_graph : DependencyGraph) : t :=
  mk unit tt
     (fun c p => option_map (fun d => (d, c)) (test_get_deps full_graph p)).

(** Live mode: [cache = {}] and the memoising [get_deps]. *)
Definition live_get_deps (packages_text : string)
  (cache : PyDict.t (list string)) (pkg : string)
  : option (list string * PyDict.t (list string)) :=
  match PyDict.get cache pkg with
  | Some d => Some (d, cache)
  | None =>
      match extract_dependencies pkg packages_text with
      | None => None
      | Some d => Some (d, PyDict.set cache pkg d)
      end
  end.

Definition live_source (packages_text : string) : t :=
  mk (PyDict.t (list string)) [] (live_get_deps packages_text).

(** What a source answers for a name when nothing is remembered yet. *)
Definition answer (src : t) (p : string) : option (list string) :=
  option_map fst (get_deps src (store0 src) p).

(** A source is coherent when remembering never changes an answer: some
    property of the memory holds initially, is kept by every call, and
    makes every call answer as the first one would. *)
Definition coherent (src : t) : Prop :=
  exists ok : store src -> Prop,
    ok (store0 src) /\
    forall c p, ok c ->
      option_map fst (get_deps src c p) = answer src p /\
      forall d c', get_deps src c p = Some (d, c') -> ok c'.

End Source.

(* ===================================================================== *)
(** * Graph Builder: [build_graph] *)
(* ===================================================================== *)

(** [for x in items: stack.append(x)] *)
Definition push_all {A : Type} (items : list A) (stack : list A) : list A :=
  fold_left (fun s x => x :: s) items stack.

Module Builder.

Inductive failure : Type :=
| PackageNotFound (pkg : string)   (* message and [sys.exit(1)] of the source *)
| KeyError (pkg : string).         (* [in_stack.remove] of a missing element *)

Inductive outcome : Type :=
| Returned (graph : DependencyGraph) (log : list string)
| Aborted (f : failure)
| Unfinished.

Section WithSource.

Variable src : Source.t.
Variable max_depth : nat.

Record state : Type := mk_state {
  stack : list (string * nat);
  visited : PySet.t;
  in_stack : PySet.t;
  result_graph : DependencyGraph;
  cycle_log : list string;       (* nodes named by the cycle messages printed *)
  store : Source.store src       (* what [get_deps] remembers *)
}.

Inductive step_result : Type :=
| Continue (st : state)
| Return (st : state)
| Abort (f : failure).

Definition init (start_pkg : string) : state :=
  mk_state [(start_pkg, 1)] PySet.empty PySet.empty [] [] (Source.store0 src).

(** One test of [while stack:] followed by one run of the loop body. *)
Definition step (st : state) : step_result :=
  match stack st with
  | [] => Return st
  | (node, depth) :: rest =>
      if max_depth <? depth then
        Continue (mk_state rest (visited st) (in_stack st) (result_graph st)
                    (cycle_log st) (store st))
      else if PySet.mem node (visited st) then
        Continue (mk_state rest (visited st) (in_stack st) (result_graph st)
                    (cycle_log st) (store st))
      else if PySet.mem node (in_stack st) then
        Continue (mk_state rest (visited st) (in_stack st) (result_graph st)
                    (cycle_log st ++ [node]) (store st))
      else
        let in_stack1 := PySet.add node (in_stack st) in
        match Source.get_deps src (store st) node with
        | None => Abort (PackageNotFound node)
        | Some (deps, store1) =>
            let graph1 := PyDict.set (result_graph st) node deps in
            let stack1 := push_all (map (fun dep => (dep, depth + 1)) (rev deps)) rest in
            match PySet.remove node in_stack1 with
            | None => Abort (KeyError node)
            | Some in_stack2 =>
                Continue (mk_state stack1 (PySet.add node (visited st)) in_stack2
                            graph1 (cycle_log st) store1)
            end
        end
  end.

Fixpoint loop (fuel : nat) (st : state) : outcome :=
  match fuel with
  | O => Unfinished
  | S fuel' =>
      match step st with
      | Continue st' => loop fuel' st'
      | Return st' => Returned (result_graph st') (cycle_log st')
      | Abort f => Aborted f
      end
  end.

(** A bound on the number of iterations: the size of the unfolding of the
    dependency relation from a node down to the depth limit. *)
Definition deps_of (n : string) : list string :=
  match Source.answer src n with Some l => l | None => [] end.

Fixpoint tree_size (k : nat) (n : string) : nat :=
  match k with
  | O => 1
  | S k' => S (list_sum (map (tree_size k') (deps_of n)))
  end.

(** The loop from its initial state; it never ends as [Unfinished] for a
    coherent source ([BuilderRuns.run_finishes]). *)
Definition run (start_pkg : string) : outcome :=
  loop (S (tree_size max_depth start_pkg)) (init start_pkg).

End WithSource.

Arguments mk_state {src}.
Arguments stack {src}.
Arguments visited {src}.
Arguments in_stack {src}.
Arguments result_graph {src}.
Arguments cycle_log {src}.
Arguments store {src}.
Arguments Continue {src}.
Arguments Return {src}.
Arguments Abort {src}.

(** The source chosen by [test_mode]; [repo_text] is the text read from
    [repo]: the fixture file in test mode, the decompressed index
    otherwise. *)
Definition source_of (repo_text : string) (test_mode : bool) : Source.t :=
  if test_mode
  then Source.test_source (Source.load_test_graph repo_text)
  else Source.live_source repo_text.

(** [build_graph(start_pkg, repo, test_mode, max_depth)]; [max_depth] is
    at least 1 when it comes from [validate_depth]. *)
Definition build_graph (start_pkg repo_text : string) (test_mode : bool)
  (max_depth : nat) : outcome :=
  run (source_of repo_text test_mode) max_depth start_pkg.

End Builder.

(* ===================================================================== *)
(** * Topological Sequencer: [compute_load_order] *)
(* ===================================================================== *)

Module Sequencer.

Record state : Type := mk_state {
  stack : list (string * bool);
  visited : PySet.t;
  in_stack : PySet.t;
  order : list string
}.

Inductive step_result : Type :=
| Continue (st : state)
| Return (r : option (list string)).

Section WithGraph.

Variable graph : DependencyGraph.

Definition init (start : string) : state :=
  mk_state [(start, false)] PySet.empty PySet.empty [].

(** One test of [while stack:] followed by one run of the loop body;
    leaving the loop is [return list(reversed(order))], and the cycle
    branch is [return None] (its message is left out). *)
Definition step (st : state) : step_result :=
  match stack st with
  | [] => Return (Some (rev (order st)))
  | (node, expanded) :: rest =>
      if PySet.mem node (in_stack st) && negb expanded then Return None
      else if PySet.mem node (visited st) then
        Continue (mk_state rest (visited st) (in_stack st) (order st))
      else if expanded then
        Continue (mk_state rest (PySet.add node (visited st))
                    (PySet.discard node (in_stack st)) (order st ++ [node]))
      else
        Continue (mk_state
                    (push_all (map (fun dep => (dep, false))
                                 (PyDict.get_default graph node []))
                       ((node, true) :: rest))
                    (visited st) (PySet.add node (in_stack st)) (order st))
  end.

Fixpoint loop (fuel : nat) (st : state) : option (option (list string)) :=
  match fuel with
  | O => None
  | S fuel' =>
      match step st with
      | Continue st' => loop fuel' st'
      | Return r => Some r
      end
  end.

(** Every name the traversal can meet, and a bound on its iterations. *)
Definition universe (start : string) : list string :=
  start :: PyDict.keys graph ++ List.concat (PyDict.values graph).

Definition fuel_bound (start : string) : nat :=
  2 + (1 + List.length (List.concat (PyDict.values graph))) * List.length (universe start).

(** The run of the function: [Some r] when it returns [r]; the bound is
    never exhausted ([SequencerFacts.run_returns]). *)
Definition run (start : string) : option (option (list string)) :=
  loop (fuel_bound start) (init start).

Definition compute_load_order (start : string) : option (list string) :=
  match run start with
  | Some r => r
  | None => None
  end.

End WithGraph.

End Sequencer.

(* ===================================================================== *)
(** * Diagram Renderer: [graph_to_mermaid] *)
(* ===================================================================== *)

Module Renderer.
Import PyStr.

(** [safe] is never empty when its first character is tested, so the
    last branch is not taken. *)
Definition _make_mermaid_id (name : string) : string :=
  let safe := sub_non_word name in
  let safe := if is_empty safe then "pkg" else safe in
  match safe with
  | String c _ => if isdigit c then ("pkg_" ++ safe)%string else safe
  | EmptyString => safe
  end.

(** [all_nodes]: the keys, then every dependency, each name once. *)
Definition all_nodes (graph : DependencyGraph) : PySet.t :=
  fold_left (fun s n => PySet.add n s)
    (PyDict.keys graph ++ List.concat (PyDict.values graph)) PySet.empty.

(** The dict comprehension over [all_nodes]; it is only looked up, so the
    order in which the set is traversed does not matter. *)
Definition id_map (graph : DependencyGraph) : PyDict.t string :=
  map (fun name => (name, _make_mermaid_id name)) (all_nodes graph).

Definition node_line (id name : string) : string :=
  ("    " ++ id ++ "[" ++ dquote ++ name ++ dquote ++ "]")%string.

Definition edge_line (src dst : string) : string :=
  ("    " ++ src ++ " --> " ++ dst)%string.

Definition edge_mem (e : string * string) (s : list (string * string)) : bool :=
  existsb (fun x => String.eqb (fst e) (fst x) && String.eqb (snd e) (snd x)) s.

Record state : Type := mk_state {
  lines : list string;
  emitted_nodes : PySet.t;
  emitted_edges : list (string * string)
}.

(** Declaring a node on first sight of its identifier. *)
Definition declare (id name : string) (st : state) : state :=
  if PySet.mem id (emitted_nodes st) then st
  else mk_state (lines st ++ [node_line id name])
         (PySet.add id (emitted_nodes st)) (emitted_edges st).

(** The body of [for dep in deps]; [None] is the [KeyError] of [id_map[dep]]. *)
Definition render_dep (ids : PyDict.t string) (pkg_id : string)
  (acc : option state) (dep : string) : option state :=
  match acc with
  | None => None
  | Some st =>
      match PyDict.get ids dep with
      | None => None
      | Some dep_id =>
          let st := declare dep_id dep st in
          if edge_mem (pkg_id, dep_id) (emitted_edges st) then Some st
          else Some (mk_state (lines st ++ [edge_line pkg_id dep_id])
                       (emitted_nodes st) (emitted_edges st ++ [(pkg_id, dep_id)]))
      end
  end.

(** The body of [for pkg, deps in graph.items()]. *)
Definition render_item (ids : PyDict.t string)
  (acc : option state) (item : string * list string) : option state :=
  match acc with
  | None => None
  | Some st =>
      let (pkg, deps) := item in
      match PyDict.get ids pkg with
      | None => None
      | Some pkg_id =>
          fold_left (render_dep ids pkg_id) deps (Some (declare pkg_id pkg st))
      end
  end.

Definition mermaid_lines (graph : DependencyGraph) (root : string)
  : option (list string) :=
  let ids := id_map graph in
  let root_id := PyDict.get_default ids root (_make_mermaid_id root) in
  let st0 := mk_state ["graph TD"; node_line root_id root] [root_id] [] in
  match fold_left (render_item ids) graph (Some st0) with
  | None => None
  | Some st =>
      Some (lines st ++
            [("class " ++ root_id ++ " root;")%string;
             "classDef root fill:#f9f,stroke:#333,stroke-width:2px;"])
  end.

Definition graph_to_mermaid (graph : DependencyGraph) (root : string)
  : option string :=
  option_map (join nl) (mermaid_lines graph root).

End Renderer.

(* ===================================================================== *)
(** * Validation of the package name and the run of the three stages *)
(* ===================================================================== *)

Module Validation.
Import PyStr.

(** [validate_package]: [None] is the [ValueError] of an empty name. *)
Definition validate_package (name : string) : option string :=
  if is_empty name || is_empty (strip name) then None else Some name.

End Validation.

Module Download.
Import PyStr.

(** The address that [download_packages] fetches:
    [repo_url.rstrip("/") + "/dists/jammy/main/binary-amd64/Packages.gz"].
    The request and the decompression are outside the model; their
    result is the [repo_text] given to the Builder. *)
Definition packages_url (repo_url : string) : string :=
  (rstrip_by (Ascii.eqb "/") repo_url
   ++ "/dists/jammy/main/binary-amd64/Packages.gz")%string.

End Download.

Module Main.

(** What [main] prints after validation: the graph, the load order
    ([None]: no order because of a cycle) and the diagram ([None] would
    be a [KeyError] of the renderer). *)
Record report : Type := mk_report {
  graph : DependencyGraph;
  load_order : option (list string);
  mermaid : option string
}.

(** Stages 3 to 5 of [main] on validated arguments; [repo_text] is the
    text read from [repo].  [None] is the end of the process inside
    [build_graph]. *)
Definition stages (package repo_text : string) (test_mode : bool) (depth : nat)
  : option report :=
  match Builder.build_graph package repo_text test_mode depth with
  | Builder.Returned g _ =>
      Some (mk_report g (Sequencer.compute_load_order g package)
              (Renderer.graph_to_mermaid g package))
  | _ => None
  end.

End Main.

(* ===================================================================== *)
(** * Fixtures *)
(* ===================================================================== *)

Module Fixtures.
Import PyStr.

(** [A: B C], [B: C], [C:], [D:] *)
Definition scenario1 : string :=
  ("A: B C" ++ nl ++ "B: C" ++ nl ++ "C:" ++ nl ++ "D:" ++ nl)%string.

(** [A: B], [B: A] *)
Definition scenario2 : string := ("A: B" ++ nl ++ "B: A" ++ nl)%string.

(** [A: B], [B: C], [C: D] *)
Definition scenario3 : string :=
  ("A: B" ++ nl ++ "B: C" ++ nl ++ "C: D" ++ nl)%string.

Definition graph1 : DependencyGraph := [("A", ["B"; "C"]); ("B", ["C"]); ("C", [])].
Definition graph2 : DependencyGraph := [("A", ["B"]); ("B", ["A"])].
Definition graph3 : DependencyGraph := [("A", ["B"]); ("B", ["C"])].

(** An index in which the stanza of [foobar] comes before that of [foo]. *)
Definition index_foobar_foo : string :=
  ("Package: foobar" ++ nl ++ "Version: 2.1" ++ nl ++ "Depends: libbar (>= 1.0)" ++ nl
   ++ nl
   ++ "Package: foo" ++ nl ++ "Depends: libc6" ++ nl)%string.

(** The same index without the stanza of [foobar]. *)
Definition index_foo : string :=
  ("Package: foo" ++ nl ++ "Depends: libc6" ++ nl)%string.

(** The source of test mode on the second fixture, and the state of the
    Builder after its first iteration from [A]. *)
Definition source2 : Source.t := Builder.source_of scenario2 true.

Definition state2 : Builder.state source2 :=
  @Builder.mk_state source2 [("B", 2)] ["A"] [] [("A", ["B"])] [] tt.

(** The source of test mode on the third fixture. *)
Definition source3 : Source.t := Builder.source_of scenario3 true.

(** A graph with the two names [a.b] and [a_b]. *)
Definition graph_dots : DependencyGraph :=
  [("app", ["a.b"; "a_b"]); ("a.b", ["x"]); ("a_b", ["y"])].

End Fixtures.

Module Examples.
Import PyStr.

(** The items [zlib1g (>= 1:1.1.4)], [python3:any] and [libc6 (>= 2.34)]
    of a [Depends] field: each a name and what follows it. *)
Definition items : list (string * string) :=
  [("zlib1g", " (>= 1:1.1.4)"); ("python3:any", EmptyString);
   ("libc6", " (>= 2.34)")].

(** An index with the single stanza of [foo], which depends on [libc6];
    [libc6] has no stanza. *)
Definition index_foo_only : string :=
  ("Package: foo" ++ nl ++ "Depends: libc6" ++ nl)%string.

End Examples.

(* ===================================================================== *)
(** * Facts about the containers *)
(* ===================================================================== *)

Module PySetFacts.
Import PySet.

Lemma mem_true_iff (x : string) (s : t) : mem x s = true <-> In x s.
Proof.
  unfold mem. rewrite existsb_exists. split.
  - intros [y [Hy Heq]]. apply String.eqb_eq in Heq. now subst.
  - intros H. exists x. split; [assumption | apply String.eqb_refl].
Qed.

Lemma mem_false_iff (x : string) (s : t) : mem x s = false <-> ~ In x s.
Proof.
  rewrite <- mem_true_iff. destruct (mem x s); split; congruence.
Qed.

Lemma in_add (x y : string) (s : t) : In y (add x s) <-> y = x \/ In y s.
Proof.
  unfold add. destruct (mem x s) eqn:E.
  - apply mem_true_iff in E. split; [tauto | intros [-> | H]; assumption].
  - rewrite in_app_iff. simpl. split; intros H; intuition auto.
Qed.

Lemma add_fresh (x : string) (s : t) : ~ In x s -> add x s = s ++ [x].
Proof.
  intros H. unfold add. apply mem_false_iff in H. now rewrite H.
Qed.

Lemma in_discard (x y : string) (s : t) : In y (discard x s) <-> In y s /\ y <> x.
Proof.
  unfold discard. split.
  - apply in_remove.
  - intros [H1 H2]. now apply in_in_remove.
Qed.

Lemma discard_last (x : string) (s : t) : ~ In x s -> discard x (s ++ [x]) = s.
Proof.
  intros H. unfold discard. rewrite remove_app. simpl.
  destruct (string_dec x x) as [_ | N]; [| congruence].
  rewrite app_nil_r. now apply notin_remove.
Qed.

Lemma remove_add (x : string) (s : t) :
  ~ In x s -> remove x (add x s) = Some s.
Proof.
  intros H. unfold remove.
  assert (Hm : mem x (add x s) = true) by (apply mem_true_iff, in_add; now left).
  rewrite Hm, add_fresh by assumption. now rewrite discard_last.
Qed.

End PySetFacts.

Module PyDictFacts.
Import PyDict.

Section Facts.
Context {V : Type}.
Implicit Types (d : PyDict.t V) (k : string) (v : V).

Lemma get_set_same d k v : get (set d k v) k = Some v.
Proof.
  induction d as [| [k' v'] d IH]; simpl.
  - now rewrite String.eqb_refl.
  - destruct (String.eqb k k') eqn:E; simpl; rewrite E; [reflexivity | exact IH].
Qed.

Lemma get_set_other d k k' v : k' <> k -> get (set d k v) k' = get d k'.
Proof.
  intros Hne. induction d as [| [k0 v0] d IH]; simpl.
  - apply String.eqb_neq in Hne. now rewrite Hne.
  - destruct (String.eqb k k0) eqn:E; simpl.
    + apply String.eqb_eq in E. subst k0.
      apply String.eqb_neq in Hne. now rewrite Hne.
    + now rewrite IH.
Qed.

Lemma get_none_iff d k : get d k = None <-> ~ In k (keys d).
Proof.
  induction d as [| [k0 v0] d IH]; simpl.
  - tauto.
  - destruct (String.eqb k k0) eqn:E.
    + apply String.eqb_eq in E. subst. split; [discriminate | tauto].
    + apply String.eqb_neq in E. rewrite IH. split; intros H; intuition congruence.
Qed.

Lemma in_keys_set d k k' v : In k' (keys (set d k v)) <-> k' = k \/ In k' (keys d).
Proof.
  induction d as [| [k0 v0] d IH]; simpl.
  - intuition congruence.
  - destruct (String.eqb k k0) eqn:E; simpl.
    + apply String.eqb_eq in E. subst. intuition congruence.
    + rewrite IH. intuition congruence.
Qed.

Lemma get_in_values d k v : get d k = Some v -> In v (values d).
Proof.
  induction d as [| [k0 v0] d IH]; simpl; [discriminate |].
  destruct (String.eqb k k0); [intros [= ->]; now left | auto].
Qed.

End Facts.

End PyDictFacts.

Lemma push_all_rev {A : Type} (items stack : list A) :
  push_all items stack = rev items ++ stack.
Proof.
  unfold push_all. revert stack.
  induction items as [| x items IH]; intros stack; simpl; [reflexivity |].
  rewrite IH, <- app_assoc. reflexivity.
Qed.

(* ===================================================================== *)
(** * The Builder: invariants and termination *)
(* ===================================================================== *)

Module BuilderFacts.
Import Builder.

Section WithSource.

Variable src : Source.t.
Variable max_depth : nat.

(** One iteration of the loop, and the states met at its boundaries. *)
Definition step_to (st st' : state src) : Prop :=
  step src max_depth st = Continue st'.

Definition steps : state src -> state src -> Prop :=
  clos_refl_trans_n1 (state src) step_to.

(** [reach_at start n d]: the source has a dependency chain of [d]
    packages from the package [start] to [n]. *)
Inductive reach_at (start_pkg : string) : string -> nat -> Prop :=
| reach_start : reach_at start_pkg start_pkg 1
| reach_dep (n : string) (d : nat) (deps : list string) (m : string) :
    reach_at start_pkg n d -> Source.answer src n = Some deps -> In m deps ->
    reach_at start_pkg m (S d).

Lemma pushed_stack (deps : list string) (depth : nat) (rest : list (string * nat)) :
  push_all (map (fun dep => (dep, depth + 1)) (rev deps)) rest
  = map (fun dep => (dep, depth + 1)) deps ++ rest.
Proof.
  rewrite push_all_rev, <- map_rev, rev_involutive. reflexivity.
Qed.

(** The two shapes of an iteration: an entry is dropped, or a node is
    expanded. *)
Lemma step_cases (st st' : state src) :
  step_to st st' ->
  exists node depth rest,
    stack st = (node, depth) :: rest /\
    ((stack st' = rest /\ visited st' = visited st /\ in_stack st' = in_stack st /\
      result_graph st' = result_graph st /\ store st' = store st /\
      (cycle_log st' = cycle_log st \/
       (PySet.mem node (in_stack st) = true /\ cycle_log st' = cycle_log st ++ [node])))
     \/
     (exists deps store1 in_stack2,
        depth <= max_depth /\ ~ In node (visited st) /\ ~ In node (in_stack st) /\
        Source.get_deps src (store st) node = Some (deps, store1) /\
        PySet.remove node (PySet.add node (in_stack st)) = Some in_stack2 /\
        st' = mk_state (map (fun dep => (dep, depth + 1)) deps ++ rest)
                (PySet.add node (visited st)) in_stack2
                (PyDict.set (result_graph st) node deps) (cycle_log st) store1)).
Proof.
  unfold step_to, step. destruct (stack st) as [| [node depth] rest] eqn:Hs; [discriminate |].
  intros H. exists node, depth, rest. split; [reflexivity |].
  destruct (max_depth <? depth) eqn:Hd.
  { injection H as <-. left. simpl. tauto. }
  destruct (PySet.mem node (visited st)) eqn:Hv.
  { injection H as <-. left. simpl. tauto. }
  destruct (PySet.mem node (in_stack st)) eqn:Hi.
  { injection H as <-. left. simpl. tauto. }
  destruct (Source.get_deps src (store st) node) as [[deps store1] |] eqn:Hg; [| discriminate].
  destruct (PySet.remove node (PySet.add node (in_stack st))) as [s2 |] eqn:Hr; [| discriminate].
  injection H as <-. right. exists deps, store1, s2.
  apply Nat.ltb_ge in Hd.
  apply PySetFacts.mem_false_iff in Hv, Hi.
  rewrite pushed_stack. repeat split; auto.
Qed.

Lemma steps_cons (st st1 st' : state src) :
  step_to st st1 -> steps st1 st' -> steps st st'.
Proof.
  intros E Hst. induction Hst as [| a b Hab _ IHa].
  - econstructor; [exact E | constructor].
  - econstructor; eassumption.
Qed.

Lemma steps_trans (st st1 st' : state src) :
  steps st st1 -> steps st1 st' -> steps st st'.
Proof.
  intros H1 H2. induction H2 as [| a b Hab _ IHa]; [assumption |].
  econstructor; eassumption.
Qed.

Lemma step_return (st st' : state src) :
  step src max_depth st = Return st' -> st' = st /\ stack st = [].
Proof.
  unfold step. destruct (stack st) as [| [node depth] rest] eqn:Hs.
  - intros [= <-]. now split.
  - destruct (max_depth <? depth); [discriminate |].
    destruct (PySet.mem node (visited st)); [discriminate |].
    destruct (PySet.mem node (in_stack st)); [discriminate |].
    destruct (Source.get_deps src (store st) node) as [[deps store1] |]; [| discriminate].
    destruct (PySet.remove node (PySet.add node (in_stack st))); discriminate.
Qed.

Lemma loop_returned (fuel : nat) (st : state src) (g : DependencyGraph)
  (log : list string) :
  loop src max_depth fuel st = Returned g log ->
  exists st', steps st st' /\ stack st' = [] /\
              result_graph st' = g /\ cycle_log st' = log.
Proof.
  revert st. induction fuel as [| fuel IH]; intros st H; [discriminate |].
  simpl in H. destruct (step src max_depth st) as [st1 | st1 | f] eqn:E.
  - destruct (IH _ H) as (st' & Hst & Hrest). exists st'. split; [| assumption].
    now apply (steps_cons st st1).
  - injection H as <- <-. apply step_return in E as [-> Hs].
    exists st. repeat split; [constructor | assumption].
  - discriminate.
Qed.

Lemma loop_aborted (fuel : nat) (st : state src) (f : failure) :
  loop src max_depth fuel st = Aborted f ->
  exists st', steps st st' /\ step src max_depth st' = Abort f.
Proof.
  revert st. induction fuel as [| fuel IH]; intros st H; [discriminate |].
  simpl in H. destruct (step src max_depth st) as [st1 | st1 | f'] eqn:E.
  - destruct (IH _ H) as (st' & Hst & Hab). exists st'. split; [| assumption].
    now apply (steps_cons st st1).
  - discriminate.
  - injection H as ->. exists st. split; [constructor | assumption].
Qed.

(** The step aborts with "not found" only when the source fails on the
    name. *)
Lemma step_not_found (st : state src) (pkg : string) :
  step src max_depth st = Abort (PackageNotFound pkg) ->
  Source.get_deps src (store st) pkg = None.
Proof.
  unfold step. destruct (stack st) as [| [node depth] rest]; [discriminate |].
  destruct (max_depth <? depth); [discriminate |].
  destruct (PySet.mem node (visited st)); [discriminate |].
  destruct (PySet.mem node (in_stack st)); [discriminate |].
  destruct (Source.get_deps src (store st) node) as [[deps store1] |] eqn:E.
  - destruct (PySet.remove node (PySet.add node (in_stack st))); discriminate.
  - now intros [= <-].
Qed.

(** The cycle branch of the loop body: a popped node within the depth
    limit that is on-stack and not visited is reported and skipped. *)
Lemma step_on_stack_node (st : state src) (node : string) (depth : nat)
  (rest : list (string * nat)) :
  stack st = (node, depth) :: rest -> depth <= max_depth ->
  ~ In node (visited st) -> In node (in_stack st) ->
  step src max_depth st
  = Continue (mk_state rest (visited st) (in_stack st) (result_graph st)
                (cycle_log st ++ [node]) (store st)).
Proof.
  intros Hs Hd Hv Hi. unfold step. rewrite Hs.
  apply Nat.ltb_ge in Hd. apply PySetFacts.mem_false_iff in Hv.
  apply PySetFacts.mem_true_iff in Hi. now rewrite Hd, Hv, Hi.
Qed.

(** ** Invariants of every run, whatever the source *)

Record inv (st : state src) : Prop := mk_inv {
  inv_in_stack : in_stack st = [];
  inv_log : cycle_log st = [];
  inv_keys : forall k, In k (PyDict.keys (result_graph st)) <-> In k (visited st)
}.

Lemma builder_inv_init (start_pkg : string) : inv (init src start_pkg).
Proof. constructor; simpl; try reflexivity; tauto. Qed.

Lemma builder_inv_step (st st' : state src) : inv st -> step_to st st' -> inv st'.
Proof.
  intros I H. destruct (step_cases _ _ H) as (node & depth & rest & Hs & Hc).
  destruct I as [Iin Ilog Ikeys].
  destruct Hc as [(Hs' & Hv' & Hi' & Hg' & _ & Hl')
                 | (deps & store1 & s2 & Hd & Hv & Hi & Hg & Hr & ->)].
  - constructor.
    + congruence.
    + destruct Hl' as [Hl' | [Hm _]]; [congruence |].
      rewrite Iin in Hm. discriminate.
    + rewrite Hg', Hv'. exact Ikeys.
  - rewrite Iin in Hr. constructor; simpl.
    + rewrite PySetFacts.remove_add in Hr by (intros []).
      now injection Hr as <-.
    + exact Ilog.
    + intros k. rewrite PyDictFacts.in_keys_set, PySetFacts.in_add, Ikeys. tauto.
Qed.

Lemma builder_inv_steps (st st' : state src) : inv st -> steps st st' -> inv st'.
Proof.
  intros I H. induction H as [| a b Hab _ IH]; [assumption |].
  eapply builder_inv_step; eassumption.
Qed.

(** An iteration never overwrites an entry of the graph: the only key it
    assigns is not yet a key. *)
Lemma step_assigns_fresh (st st' : state src) :
  inv st -> step_to st st' ->
  result_graph st' = result_graph st \/
  exists node deps,
    PyDict.get (result_graph st) node = None /\
    result_graph st' = PyDict.set (result_graph st) node deps.
Proof.
  intros I H. destruct (step_cases _ _ H) as (node & depth & rest & Hs & Hc).
  destruct Hc as [(_ & _ & _ & Hg' & _) | (deps & store1 & s2 & Hd & Hv & Hi & Hg & Hr & ->)].
  - now left.
  - right. exists node, deps. split; [| reflexivity].
    apply PyDictFacts.get_none_iff. now rewrite (inv_keys _ I).
Qed.

Lemma step_keeps_entries (st st' : state src) :
  inv st -> step_to st st' ->
  forall k v, PyDict.get (result_graph st) k = Some v ->
              PyDict.get (result_graph st') k = Some v.
Proof.
  intros I H k v Hk.
  destruct (step_assigns_fresh _ _ I H) as [-> | (node & deps & Hnone & ->)]; [assumption |].
  rewrite PyDictFacts.get_set_other; [assumption |].
  intros ->. congruence.
Qed.

Lemma steps_keep_entries (st st' : state src) :
  inv st -> steps st st' ->
  forall k v, PyDict.get (result_graph st) k = Some v ->
              PyDict.get (result_graph st') k = Some v.
Proof.
  intros I H. induction H as [| st1 st2 Hstep Hsteps IH]; [auto |].
  intros k v Hk. apply (step_keeps_entries st1 st2); auto.
  eapply builder_inv_steps; eassumption.
Qed.

(** The removal from the on-stack set never raises. *)
Lemma step_no_key_error (st : state src) (n : string) :
  inv st -> step src max_depth st <> Abort (KeyError n).
Proof.
  intros I. unfold step. destruct (stack st) as [| [node depth] rest]; [discriminate |].
  destruct (max_depth <? depth); [discriminate |].
  destruct (PySet.mem node (visited st)); [discriminate |].
  destruct (PySet.mem node (in_stack st)) eqn:Hi; [discriminate |].
  destruct (Source.get_deps src (store st) node) as [[deps store1] |]; [| discriminate].
  apply PySetFacts.mem_false_iff in Hi.
  rewrite PySetFacts.remove_add by assumption. discriminate.
Qed.

(** ** Coherent sources: termination and the depth bound *)

Section Coherent.

Variable ok : Source.store src -> Prop.
Hypothesis ok_init : ok (Source.store0 src).
Hypothesis ok_call :
  forall c p, ok c ->
    option_map fst (Source.get_deps src c p) = Source.answer src p /\
    forall d c', Source.get_deps src c p = Some (d, c') -> ok c'.

Lemma call_some (c c' : Source.store src) (p : string) (d : list string) :
  ok c -> Source.get_deps src c p = Some (d, c') ->
  Source.answer src p = Some d /\ ok c'.
Proof.
  intros Hc E. destruct (ok_call c p Hc) as [Ha Hk].
  rewrite E in Ha. simpl in Ha. split; [now symmetry | eapply Hk; eassumption].
Qed.

Lemma call_none (c : Source.store src) (p : string) :
  ok c -> Source.get_deps src c p = None -> Source.answer src p = None.
Proof.
  intros Hc E. destruct (ok_call c p Hc) as [Ha _].
  rewrite E in Ha. now symmetry.
Qed.

Lemma step_ok (st st' : state src) :
  ok (store st) -> step_to st st' -> ok (store st').
Proof.
  intros Hok H. destruct (step_cases _ _ H) as (node & depth & rest & Hs & Hc).
  destruct Hc as [(_ & _ & _ & _ & -> & _)
                 | (deps & store1 & s2 & Hd & Hv & Hi & Hg & Hr & ->)]; [assumption |].
  simpl. now destruct (call_some _ _ _ _ Hok Hg).
Qed.

Lemma steps_ok (st st' : state src) :
  ok (store st) -> steps st st' -> ok (store st').
Proof.
  intros Hok H. induction H as [| a b Hab _ IH]; [assumption |].
  eapply step_ok; eassumption.
Qed.

Definition weight (e : string * nat) : nat :=
  tree_size src (S max_depth - snd e) (fst e).

Definition potential (st : state src) : nat := list_sum (map weight (stack st)).

Lemma weight_pos (e : string * nat) : 1 <= weight e.
Proof.
  unfold weight. destruct (S max_depth - snd e); simpl; lia.
Qed.

Lemma builder_step_decreases (st st' : state src) :
  ok (store st) -> step_to st st' -> potential st' < potential st.
Proof.
  intros Hok H. destruct (step_cases _ _ H) as (node & depth & rest & Hs & Hc).
  unfold potential. rewrite Hs. simpl.
  destruct Hc as [(Hs' & _) | (deps & store1 & s2 & Hd & Hv & Hi & Hg & Hr & ->)].
  - rewrite Hs'. pose proof (weight_pos (node, depth)). lia.
  - destruct (call_some _ _ _ _ Hok Hg) as [Ha _].
    simpl. rewrite map_app, list_sum_app, map_map.
    unfold weight at 3. simpl fst. simpl snd.
    replace (S max_depth - depth) with (S (max_depth - depth)) by lia.
    simpl. unfold deps_of. rewrite Ha.
    assert (E : map (fun x => weight (x, depth + 1)) deps
                = map (tree_size src (max_depth - depth)) deps).
    { apply map_ext. intros a. unfold weight. cbn [fst snd]. f_equal. lia. }
    rewrite E. lia.
Qed.

Lemma loop_finishes (fuel : nat) (st : state src) :
  ok (store st) -> potential st < fuel -> loop src max_depth fuel st <> Unfinished.
Proof.
  revert st. induction fuel as [| fuel IH]; intros st Hok Hlt; [lia |].
  simpl. destruct (step src max_depth st) as [st' | st' | f] eqn:E; try discriminate.
  apply IH; [eapply step_ok; eassumption |].
  pose proof (builder_step_decreases st st' Hok E). lia.
Qed.

Section FromStart.

Variable start_pkg : string.

Record reach_inv (st : state src) : Prop := mk_reach_inv {
  reach_stack : forall n d, In (n, d) (stack st) -> reach_at start_pkg n d;
  reach_keys : forall k, In k (PyDict.keys (result_graph st)) ->
                         exists d, d <= max_depth /\ reach_at start_pkg k d
}.

Lemma reach_inv_init : reach_inv (init src start_pkg).
Proof.
  constructor; simpl; [| tauto].
  intros n d [[= <- <-] | []]. constructor.
Qed.

Lemma reach_inv_step (st st' : state src) :
  ok (store st) -> reach_inv st -> step_to st st' -> reach_inv st'.
Proof.
  intros Hok [Istack Idepth] H.
  destruct (step_cases _ _ H) as (node & depth & rest & Hs & Hc).
  destruct Hc as [(Hs' & _ & _ & Hg' & _)
                 | (deps & store1 & s2 & Hd & Hv & Hi & Hg & Hr & ->)].
  - constructor.
    + intros n d Hin. apply Istack. rewrite Hs, <- Hs'. now right.
    + rewrite Hg'. exact Idepth.
  - assert (Hnode : reach_at start_pkg node depth) by (apply Istack; rewrite Hs; now left).
    destruct (call_some _ _ _ _ Hok Hg) as [Ha _].
    constructor; simpl.
    + intros n d Hin. apply in_app_or in Hin as [Hin | Hin].
      * apply in_map_iff in Hin as (dep & [= <- <-] & Hdep).
        rewrite Nat.add_1_r. now apply (reach_dep start_pkg node depth deps).
      * apply Istack. rewrite Hs. now right.
    + intros k Hk. apply PyDictFacts.in_keys_set in Hk as [-> | Hk].
      * exists depth. now split.
      * now apply Idepth.
Qed.

Lemma reach_inv_steps (st : state src) :
  steps (init src start_pkg) st -> ok (store st) /\ reach_inv st.
Proof.
  induction 1 as [| st st' Hstep _ [IHok IH]].
  - split; [exact ok_init | apply reach_inv_init].
  - split; [eapply step_ok | eapply reach_inv_step]; eassumption.
Qed.

End FromStart.

End Coherent.

End WithSource.

End BuilderFacts.

(* ===================================================================== *)
(** * The Sequencer: invariants and termination *)
(* ===================================================================== *)

Module SequencerFacts.
Import Sequencer.

Section WithGraph.

Variable graph : DependencyGraph.
Variable start : string.

(** [graph.get(n, [])] and the edge relation it induces. *)
Definition deps (n : string) : list string := PyDict.get_default graph n [].
Definition edge (n d : string) : Prop := In d (deps n).

(** The nodes whose "expanded" marker is on the stack. *)
Definition t_nodes (stk : list (string * bool)) : list string :=
  map fst (filter snd stk).

(** Position of the first occurrence ([length l] when there is none). *)
Fixpoint pos (x : string) (l : list string) : nat :=
  match l with
  | [] => 0
  | y :: l' => if String.eqb x y then 0 else S (pos x l')
  end.

(** Every dependency of a marker [(n, true)] on the stack is either
    sequenced already or waits above the marker. *)
Fixpoint covered (ord : list string) (stk : list (string * bool))
  (above : list string) : Prop :=
  match stk with
  | [] => True
  | (n, b) :: rest =>
      (b = true -> forall d, edge n d -> In d ord \/ In d above)
      /\ covered ord rest (n :: above)
  end.

(** In the post-order every sequenced node comes after its dependencies. *)
Definition closed (ord : list string) : Prop :=
  forall n, In n ord -> forall d, edge n d -> In d ord /\ pos d ord < pos n ord.

Definition start_phase (st : state) : Prop :=
  st = init start \/
  (exists above, stack st = above ++ [(start, true)] /\ ~ In start (order st)) \/
  (stack st = [] /\ exists o, order st = o ++ [start] /\ ~ In start o).

Record inv (st : state) : Prop := mk_inv {
  inv_visited : visited st = order st;
  inv_in_stack : in_stack st = rev (t_nodes (stack st));
  inv_nodup : NoDup (t_nodes (stack st) ++ order st);
  inv_stack_univ : forall n b, In (n, b) (stack st) -> In n (universe graph start);
  inv_order_univ : incl (order st) (universe graph start);
  inv_covered : covered (order st) (stack st) [];
  inv_closed : closed (order st);
  inv_start : start_phase st
}.

(** ** Auxiliary facts *)

Lemma t_nodes_app (a b : list (string * bool)) :
  t_nodes (a ++ b) = t_nodes a ++ t_nodes b.
Proof. unfold t_nodes. now rewrite filter_app, map_app. Qed.

Definition unexpanded (l : list string) : list (string * bool) :=
  rev (map (fun dep => (dep, false)) l).

Lemma t_nodes_unexpanded (l : list string) : t_nodes (unexpanded l) = [].
Proof.
  unfold unexpanded. induction l as [| x l IH]; simpl; [reflexivity |].
  rewrite t_nodes_app, IH. reflexivity.
Qed.

Lemma in_unexpanded (l : list string) (n : string) (b : bool) :
  In (n, b) (unexpanded l) -> b = false /\ In n l.
Proof.
  unfold unexpanded. rewrite <- in_rev, in_map_iff.
  intros (d & [= <- <-] & Hd). now split.
Qed.

Lemma fst_unexpanded (l : list string) : map fst (unexpanded l) = rev l.
Proof.
  unfold unexpanded. rewrite map_rev, map_map. simpl. now rewrite map_id.
Qed.

Lemma in_t_nodes (stk : list (string * bool)) (n : string) :
  In n (t_nodes stk) <-> In (n, true) stk.
Proof.
  unfold t_nodes. rewrite in_map_iff. split.
  - intros ([m b] & <- & H). apply filter_In in H as [H Hb]. simpl in *. now subst.
  - intros H. exists (n, true). split; [reflexivity |]. apply filter_In. now split.
Qed.

Lemma covered_mono (o o' : list string) (stk : list (string * bool)) :
  forall a a',
    (forall x, In x o \/ In x a -> In x o' \/ In x a') ->
    covered o stk a -> covered o' stk a'.
Proof.
  induction stk as [| [n b] stk IH]; intros a a' Hsub; simpl; [trivial |].
  intros [Hhead Htail]. split.
  - intros Hb d Hd. apply Hsub. now apply Hhead.
  - apply (IH (n :: a)); [| assumption].
    intros x [Hx | [-> | Hx]].
    + destruct (Hsub x (or_introl Hx)); [now left | right; now right].
    + right. now left.
    + destruct (Hsub x (or_intror Hx)); [now left | right; now right].
Qed.

Lemma covered_app (o : list string) (l1 l2 : list (string * bool)) :
  forall a,
    covered o l1 a -> covered o l2 (rev (map fst l1) ++ a) -> covered o (l1 ++ l2) a.
Proof.
  induction l1 as [| [n b] l1 IH]; intros a H1 H2; simpl in *; [assumption |].
  destruct H1 as [Hh Ht]. split; [assumption |].
  apply IH; [assumption |]. now rewrite <- app_assoc in H2.
Qed.

Lemma covered_unexpanded (o : list string) (l : list string) :
  forall a, covered o (unexpanded l) a.
Proof.
  assert (Hall : forall e, In e (unexpanded l) -> snd e = false).
  { intros [n b] He. now apply in_unexpanded in He as [-> _]. }
  induction (unexpanded l) as [| [m c] r IHr]; intros a; simpl; [trivial |].
  split.
  - intros ->. specialize (Hall (m, true) (or_introl eq_refl)). discriminate.
  - apply IHr. intros e He. apply Hall. now right.
Qed.

Lemma pos_app_in (x : string) (l l' : list string) :
  In x l -> pos x (l ++ l') = pos x l.
Proof.
  induction l as [| y l IH]; simpl; [tauto |].
  intros [-> | H].
  - now rewrite String.eqb_refl.
  - destruct (String.eqb x y); [reflexivity | now rewrite IH].
Qed.

Lemma pos_in_lt (x : string) (l : list string) : In x l -> pos x l < List.length l.
Proof.
  induction l as [| y l IH]; simpl; [tauto |].
  intros H. destruct (String.eqb x y) eqn:E; [lia |].
  apply String.eqb_neq in E. destruct H as [-> | H]; [congruence |].
  specialize (IH H). lia.
Qed.

Lemma pos_app_fresh (x : string) (l : list string) :
  ~ In x l -> pos x (l ++ [x]) = List.length l.
Proof.
  induction l as [| y l IH]; simpl; intros H.
  - now rewrite String.eqb_refl.
  - destruct (String.eqb x y) eqn:E.
    + apply String.eqb_eq in E. subst. tauto.
    + rewrite IH; tauto.
Qed.

Lemma edge_in_values (n d : string) :
  edge n d -> In d (List.concat (PyDict.values graph)).
Proof.
  unfold edge, deps, PyDict.get_default.
  destruct (PyDict.get graph n) as [l |] eqn:E; [| intros []].
  intros H. apply in_concat. exists l. split; [| assumption].
  eapply PyDictFacts.get_in_values; eassumption.
Qed.

Lemma edge_in_universe (n d : string) : edge n d -> In d (universe graph start).
Proof.
  intros H. unfold universe. right. apply in_or_app. right.
  now apply (edge_in_values n).
Qed.

Lemma length_in_concat (l : list string) (ls : list (list string)) :
  In l ls -> List.length l <= List.length (List.concat ls).
Proof.
  induction ls as [| x ls IH]; simpl; [tauto |].
  rewrite length_app. intros [-> | H]; [lia | specialize (IH H); lia].
Qed.

Lemma deps_length (n : string) :
  List.length (deps n) <= List.length (List.concat (PyDict.values graph)).
Proof.
  unfold deps, PyDict.get_default.
  destruct (PyDict.get graph n) as [l |] eqn:E; [| simpl; lia].
  apply length_in_concat. eapply PyDictFacts.get_in_values; eassumption.
Qed.

(** ** The four kinds of iteration *)

Inductive step_kind (st st' : state) : Prop :=
| kind_skip (node : string) (rest : list (string * bool)) :
    stack st = (node, false) :: rest ->
    In node (visited st) -> ~ In node (in_stack st) ->
    st' = mk_state rest (visited st) (in_stack st) (order st) ->
    step_kind st st'
| kind_skip_marker (node : string) (rest : list (string * bool)) :
    stack st = (node, true) :: rest ->
    In node (visited st) ->
    st' = mk_state rest (visited st) (in_stack st) (order st) ->
    step_kind st st'
| kind_finish (node : string) (rest : list (string * bool)) :
    stack st = (node, true) :: rest ->
    ~ In node (visited st) ->
    st' = mk_state rest (PySet.add node (visited st))
            (PySet.discard node (in_stack st)) (order st ++ [node]) ->
    step_kind st st'
| kind_expand (node : string) (rest : list (string * bool)) :
    stack st = (node, false) :: rest ->
    ~ In node (in_stack st) -> ~ In node (visited st) ->
    st' = mk_state (unexpanded (deps node) ++ (node, true) :: rest)
            (visited st) (PySet.add node (in_stack st)) (order st) ->
    step_kind st st'.

Lemma step_inv (st st' : state) : step graph st = Continue st' -> step_kind st st'.
Proof.
  unfold step. destruct (stack st) as [| [node expanded] rest] eqn:Hs; [discriminate |].
  destruct (PySet.mem node (in_stack st)) eqn:Hi;
    destruct expanded; simpl; try discriminate;
    destruct (PySet.mem node (visited st)) eqn:Hv;
    intros [= <-].
  - apply PySetFacts.mem_true_iff in Hv. eapply kind_skip_marker; eauto.
  - apply PySetFacts.mem_false_iff in Hv. eapply kind_finish; eauto.
  - apply PySetFacts.mem_true_iff in Hv. eapply kind_skip_marker; eauto.
  - apply PySetFacts.mem_false_iff in Hv. eapply kind_finish; eauto.
  - apply PySetFacts.mem_true_iff in Hv. apply PySetFacts.mem_false_iff in Hi.
    eapply kind_skip; eauto.
  - apply PySetFacts.mem_false_iff in Hv. apply PySetFacts.mem_false_iff in Hi.
    eapply kind_expand; eauto. rewrite push_all_rev. reflexivity.
Qed.

Lemma step_return_some (st : state) (seq : list string) :
  step graph st = Return (Some seq) -> stack st = [] /\ seq = rev (order st).
Proof.
  unfold step. destruct (stack st) as [| [node expanded] rest]; [intros [= <-]; now split |].
  destruct (PySet.mem node (in_stack st) && negb expanded); [discriminate |].
  destruct (PySet.mem node (visited st)); [discriminate |].
  destruct expanded; discriminate.
Qed.

(** ** Preservation of the invariant *)

Lemma sequencer_inv_init : inv (init start).
Proof.
  constructor; simpl; try reflexivity.
  - constructor.
  - intros n b [[= <- <-] | []]. now left.
  - intros x [].
  - split; [discriminate | trivial].
  - intros n [].
  - now left.
Qed.

Lemma marker_not_visited (st : state) (node : string) (rest : list (string * bool)) :
  inv st -> stack st = (node, true) :: rest -> ~ In node (order st).
Proof.
  intros I Hs Hin. pose proof (inv_nodup _ I) as Hnd. rewrite Hs in Hnd.
  simpl in Hnd. apply NoDup_cons_iff in Hnd as [Hnot _].
  apply Hnot, in_or_app. now right.
Qed.

Lemma sequencer_inv_step (st st' : state) : inv st -> step graph st = Continue st' -> inv st'.
Proof.
  intros I H.
  destruct (step_inv _ _ H)
    as [node rest Hs Hv Hi -> | node rest Hs Hv -> | node rest Hs Hv -> | node rest Hs Hi Hv ->].
  - (* an unexpanded entry of a sequenced node is dropped *)
    destruct I as [Ivis Iin Ind Isu Iou Icov Icl Ist]. rewrite Hs in *.
    constructor; simpl; try assumption.
    + intros n b Hin. apply (Isu n b). now right.
    + destruct Icov as [_ Icov]. eapply (covered_mono _ _ _ [node] []); [| exact Icov].
      intros x [Hx | [-> | []]]; left; [assumption | congruence].
    + destruct Ist as [E | [(above & Ha & Hn) | (Ha & _)]];
        [| rewrite Hs in Ha | rewrite Hs in Ha; discriminate].
      * rewrite E in Hv. simpl in Hv. tauto.
      * right. left. destruct above as [| a above]; [discriminate |].
        injection Ha as <- ->. now exists above.
  - (* impossible: a marker of a sequenced node *)
    exfalso. apply (marker_not_visited st node rest I Hs).
    now rewrite <- (inv_visited _ I).
  - (* the marker of a node is popped: the node is sequenced *)
    pose proof (marker_not_visited st node rest I Hs) as Hfresh.
    destruct I as [Ivis Iin Ind Isu Iou Icov Icl Ist]. rewrite Hs in *.
    change (t_nodes ((node, true) :: rest)) with (node :: t_nodes rest) in *.
    rewrite <- app_comm_cons in Ind.
    pose proof Ind as Ind0. apply NoDup_cons_iff in Ind0 as [Hnot Hnd].
    constructor; simpl.
    + rewrite PySetFacts.add_fresh by assumption. now rewrite Ivis.
    + rewrite Iin. simpl. apply PySetFacts.discard_last.
      rewrite <- in_rev. intros Hin. apply Hnot, in_or_app. now left.
    + rewrite app_assoc. eapply Permutation_NoDup; [| exact Ind].
      apply Permutation_cons_append.
    + intros n b Hin. apply (Isu n b). now right.
    + intros x Hx. apply in_app_or in Hx as [Hx | [<- | []]]; [now apply Iou |].
      apply (Isu node true). now left.
    + destruct Icov as [_ Icov]. eapply (covered_mono _ _ _ [node] []); [| exact Icov].
      intros x [Hx | [-> | []]]; left; apply in_or_app; [now left | right; now left].
    + destruct Icov as [Hhead _].
      intros n Hn d Hd. apply in_app_or in Hn as [Hn | [<- | []]].
      * destruct (Icl n Hn d Hd) as [Hin Hlt].
        split; [apply in_or_app; now left |].
        now rewrite !pos_app_in.
      * destruct (Hhead eq_refl d Hd) as [Hin | []].
        split; [apply in_or_app; now left |].
        rewrite pos_app_in, pos_app_fresh by assumption. now apply pos_in_lt.
    + destruct Ist as [E | [(above & Ha & Hn) | (Ha & _)]];
        [| rewrite Hs in Ha | rewrite Hs in Ha; discriminate].
      * rewrite E in Hs. discriminate.
      * destruct above as [| a above].
        { injection Ha as -> ->. right. right. split; [reflexivity |]. now exists (order st). }
        injection Ha as <- ->. right. left. exists above. split; [reflexivity |].
        intros Hin. apply in_app_or in Hin as [Hin | [<- | []]]; [tauto |].
        apply Hnot, in_or_app. left. rewrite t_nodes_app. apply in_or_app. right. now left.
  - (* first visit of a node: marker and dependencies are pushed *)
    destruct I as [Ivis Iin Ind Isu Iou Icov Icl Ist]. rewrite Hs in *.
    change (t_nodes ((node, false) :: rest)) with (t_nodes rest) in *.
    assert (Ht : t_nodes (unexpanded (deps node) ++ (node, true) :: rest)
                 = node :: t_nodes rest).
    { now rewrite t_nodes_app, t_nodes_unexpanded. }
    constructor; simpl; try assumption.
    + rewrite Ht, PySetFacts.add_fresh by assumption. now rewrite Iin.
    + rewrite Ht. simpl. constructor; [| assumption].
      intros Hin. apply in_app_or in Hin as [Hin | Hin].
      * apply Hi. rewrite Iin, <- in_rev. assumption.
      * apply Hv. now rewrite Ivis.
    + intros n b Hin. apply in_app_or in Hin as [Hin | [[= <- <-] | Hin]].
      * apply in_unexpanded in Hin as [_ Hin]. now apply (edge_in_universe node).
      * apply (Isu node false). now left.
      * apply (Isu n b). now right.
    + destruct Icov as [_ Icov]. apply covered_app; [apply covered_unexpanded |].
      simpl. split.
      * intros _ d Hd. right. rewrite fst_unexpanded, rev_involutive, app_nil_r. exact Hd.
      * eapply (covered_mono _ _ _ [node] _); [| exact Icov].
        intros x [Hx | [-> | []]]; [now left | right; now left].
    + destruct Ist as [E | [(above & Ha & Hn) | (Ha & _)]];
        [| rewrite Hs in Ha | rewrite Hs in Ha; discriminate].
      * rewrite E in Hs. injection Hs as <- <-. right. left.
        exists (unexpanded (deps start)). split; [reflexivity |].
        rewrite E. simpl. tauto.
      * right. left. destruct above as [| a above]; [discriminate |].
        injection Ha as <- ->.
        exists (unexpanded (deps node) ++ (node, true) :: above).
        split; [| assumption]. now rewrite <- app_assoc.
Qed.

(** ** Termination *)

Definition total_deps : nat := List.length (List.concat (PyDict.values graph)).

Definition potential (st : state) : nat :=
  List.length (stack st)
  + (1 + total_deps)
    * (List.length (universe graph start)
       - List.length (t_nodes (stack st)) - List.length (order st)).

Lemma inv_count (st : state) :
  inv st ->
  List.length (t_nodes (stack st)) + List.length (order st)
  <= List.length (universe graph start).
Proof.
  intros I. rewrite <- length_app. apply NoDup_incl_length; [apply (inv_nodup _ I) |].
  intros x Hx. apply in_app_or in Hx as [Hx | Hx].
  - apply in_t_nodes in Hx. apply (inv_stack_univ _ I x true Hx).
  - now apply (inv_order_univ _ I).
Qed.

Lemma sequencer_step_decreases (st st' : state) :
  inv st -> step graph st = Continue st' -> potential st' < potential st.
Proof.
  intros I H. pose proof (sequencer_inv_step _ _ I H) as I'.
  pose proof (inv_count _ I) as C. pose proof (inv_count _ I') as C'.
  destruct (step_inv _ _ H)
    as [node rest Hs Hv Hi -> | node rest Hs Hv -> | node rest Hs Hv -> | node rest Hs Hi Hv ->];
    unfold potential; rewrite Hs in *; cbn [stack order] in *.
  - change (t_nodes ((node, false) :: rest)) with (t_nodes rest).
    cbn [List.length]. lia.
  - exfalso. apply (marker_not_visited st node rest I Hs).
    now rewrite <- (inv_visited _ I).
  - change (t_nodes ((node, true) :: rest)) with (node :: t_nodes rest).
    rewrite length_app. cbn [List.length].
    remember (List.length (universe graph start)) as u.
    remember (List.length (t_nodes rest)) as a.
    remember (List.length (order st)) as b.
    replace (u - a - (b + 1)) with (u - S a - b) by lia.
    lia.
  - change (t_nodes ((node, false) :: rest)) with (t_nodes rest) in *.
    rewrite t_nodes_app, t_nodes_unexpanded in *.
    change (t_nodes ((node, true) :: rest)) with (node :: t_nodes rest) in *.
    cbn [List.length app] in *.
    rewrite length_app. unfold unexpanded. rewrite length_rev, length_map.
    cbn [List.length].
    pose proof (deps_length node) as D. fold total_deps in D.
    remember (List.length (universe graph start)) as u.
    remember (List.length (t_nodes rest)) as a.
    remember (List.length (order st)) as b.
    replace (u - a - b) with (S (u - S a - b)) by lia.
    rewrite Nat.mul_succ_r. lia.
Qed.

Lemma loop_terminates (fuel : nat) (st : state) :
  inv st -> potential st < fuel -> exists r, loop graph fuel st = Some r.
Proof.
  revert st. induction fuel as [| fuel IH]; intros st I Hlt; [lia |].
  simpl. destruct (step graph st) as [st' | r] eqn:E; [| now exists r].
  apply IH; [eapply sequencer_inv_step; eassumption |].
  pose proof (sequencer_step_decreases st st' I E). lia.
Qed.

Lemma loop_result (fuel : nat) (st : state) (r : option (list string)) :
  inv st -> loop graph fuel st = Some r ->
  exists st', inv st' /\ step graph st' = Return r.
Proof.
  revert st. induction fuel as [| fuel IH]; intros st I H; [discriminate |].
  simpl in H. destruct (step graph st) as [st' | r'] eqn:E.
  - apply (IH st'); [eapply sequencer_inv_step; eassumption | assumption].
  - injection H as ->. now exists st.
Qed.

Lemma run_returns : exists r, run graph start = Some r.
Proof.
  unfold run. apply loop_terminates; [apply sequencer_inv_init |].
  unfold potential, fuel_bound, init. simpl. fold total_deps. lia.
Qed.

(** ** What a returned sequence looks like *)

Lemma run_some_final (seq : list string) :
  run graph start = Some (Some seq) ->
  exists o, seq = rev (o ++ [start]) /\ ~ In start o /\
            NoDup (o ++ [start]) /\ closed (o ++ [start]).
Proof.
  intros H. unfold run in H.
  destruct (loop_result _ _ _ sequencer_inv_init H) as (st & I & Hret).
  apply step_return_some in Hret as [Hs ->].
  destruct (inv_start _ I) as [E | [(above & Ha & _) | (_ & o & Ho & Hn)]].
  - rewrite E in Hs. discriminate.
  - rewrite Hs in Ha. destruct above; discriminate.
  - exists o. rewrite <- Ho.
    split; [reflexivity |]. split; [assumption |]. split.
    + pose proof (inv_nodup _ I) as Hnd. now rewrite Hs in Hnd.
    + exact (inv_closed _ I).
Qed.

(** A closed post-order admits no cycle through its members and contains
    everything reachable from them. *)
Lemma closed_trans (ord : list string) (n m : string) :
  closed ord -> clos_trans string edge n m -> In n ord ->
  In m ord /\ pos m ord < pos n ord.
Proof.
  intros Hc Ht. induction Ht as [n m He | n k m _ IH1 _ IH2]; intros Hn.
  - now apply (Hc n).
  - destruct (IH1 Hn) as [Hk Hlt1]. destruct (IH2 Hk) as [Hm Hlt2].
    split; [assumption | lia].
Qed.

Lemma closed_reach (ord : list string) (n m : string) :
  closed ord -> clos_refl_trans string edge n m -> In n ord -> In m ord.
Proof.
  intros Hc Hr. induction Hr as [n m He | n | n k m _ IH1 _ IH2]; intros Hn.
  - now apply (Hc n).
  - assumption.
  - auto.
Qed.

Lemma pos_rev (l : list string) (x : string) :
  NoDup l -> In x l -> pos x (rev l) + pos x l + 1 = List.length l.
Proof.
  induction l as [| y l IH]; simpl; [tauto |].
  intros Hnd Hin. apply NoDup_cons_iff in Hnd as [Hy Hnd].
  destruct (String.eqb x y) eqn:E.
  - apply String.eqb_eq in E. subst y.
    rewrite pos_app_fresh by (now rewrite <- in_rev). rewrite length_rev. lia.
  - apply String.eqb_neq in E. destruct Hin as [-> | Hin]; [congruence |].
    rewrite pos_app_in by (now rewrite <- in_rev).
    specialize (IH Hnd Hin). lia.
Qed.

End WithGraph.

(** [before a b l]: both occur in [l] and [a] comes strictly first. *)
Definition before (a b : string) (l : list string) : Prop :=
  In a l /\ In b l /\ pos a l < pos b l.

Lemma compute_load_order_run (graph : DependencyGraph) (start : string)
  (seq : list string) :
  compute_load_order graph start = Some seq -> run graph start = Some (Some seq).
Proof.
  unfold compute_load_order.
  destruct (run graph start) as [r |]; [now intros -> | discriminate].
Qed.

(** In a returned sequence no name is repeated, and every member comes
    strictly before each of its dependencies, which are members too. *)
Lemma returned_sequence_dependents_first
  (graph : DependencyGraph) (start : string) (seq : list string) :
  compute_load_order graph start = Some seq ->
  NoDup seq /\
  forall node dep, In node seq -> edge graph node dep -> before node dep seq.
Proof.
  intros H. apply compute_load_order_run in H.
  destruct (run_some_final _ _ _ H) as (o & -> & _ & Hnd & Hc).
  split; [now apply NoDup_rev |].
  intros node dep Hn He. rewrite <- in_rev in Hn.
  destruct (Hc node Hn dep He) as [Hd Hlt].
  unfold before. rewrite <- !in_rev. repeat split; try assumption.
  pose proof (pos_rev _ node Hnd Hn). pose proof (pos_rev _ dep Hnd Hd). lia.
Qed.

End SequencerFacts.

(* ===================================================================== *)
(** * Facts about the sources *)
(* ===================================================================== *)

Module SourceFacts.
Import PyStr Source.

(** A line with a colon always unpacks into a name and a dependency text. *)
Lemma split1_go_two (c : ascii) (s cur : string) :
  contains c s = true -> exists a b, split1_go c s cur = [a; b].
Proof.
  revert cur. induction s as [| x s IH]; intros cur; simpl; [discriminate |].
  destruct (Ascii.eqb x c); simpl; intros H; [now exists cur, s | now apply IH].
Qed.

Lemma split1_two (c : ascii) (s : string) :
  contains c s = true -> exists a b, split1 c s = [a; b].
Proof. apply split1_go_two. Qed.

Lemma prefix_refl (s : string) : prefix s s = true.
Proof.
  induction s as [| c s IH]; simpl; [reflexivity |].
  destruct (ascii_dec c c); [assumption | congruence].
Qed.

Lemma prefix_app_l (x y b : string) :
  prefix (x ++ y)%string b = true -> prefix x b = true.
Proof.
  revert b. induction x as [| c x IH]; intros b H.
  - destruct b; reflexivity.
  - destruct b as [| c' b]; simpl in *; [discriminate |].
    destruct (ascii_dec c c'); [now apply IH | discriminate].
Qed.

(** [heads_stanza p b]: the first line of block [b] is exactly
    ["Package: p"]. *)
Definition heads_stanza (p b : string) : Prop :=
  b = ("Package: " ++ p)%string \/
  startswith b (("Package: " ++ p) ++ nl)%string = true.

Lemma heads_stanza_startswith (p b : string) :
  heads_stanza p b -> startswith b ("Package: " ++ p)%string = true.
Proof.
  unfold startswith. intros [-> | H].
  - apply prefix_refl.
  - eapply prefix_app_l. exact H.
Qed.

Lemma find_block_none (p : string) (blocks : list string) :
  (forall b, In b blocks -> startswith b ("Package: " ++ p)%string = false) ->
  find_block p blocks = None.
Proof.
  induction blocks as [| b blocks IH]; intros H; [reflexivity |].
  cbn [find_block]. rewrite (H b (or_introl eq_refl)). apply IH. intros b' Hb'. apply H. now right.
Qed.

Lemma find_block_some (p : string) (blocks : list string) :
  (exists b, In b blocks /\ startswith b ("Package: " ++ p)%string = true) ->
  find_block p blocks <> None.
Proof.
  induction blocks as [| b blocks IH]; intros (b' & Hin & Hp); [contradiction |].
  cbn [find_block].
  destruct (startswith b ("Package: " ++ p)%string) eqn:E; [discriminate |].
  apply IH. destruct Hin as [-> | Hin]; [congruence | now exists b'].
Qed.

(** The memo of live mode holds answers of [extract_dependencies] only. *)
Definition cache_ok (text : string) (cache : PyDict.t (list string)) : Prop :=
  forall p d, PyDict.get cache p = Some d -> extract_dependencies p text = Some d.

(** The memo does not change any answer: a call through it answers as
    [extract_dependencies] does and leaves such a memo behind. *)
Lemma live_get_deps_transparent (text : string) (cache : PyDict.t (list string))
  (pkg : string) :
  cache_ok text cache ->
  option_map fst (live_get_deps text cache pkg) = extract_dependencies pkg text
  /\ forall d cache', live_get_deps text cache pkg = Some (d, cache') ->
                      cache_ok text cache'.
Proof.
  intros Hok. unfold live_get_deps.
  destruct (PyDict.get cache pkg) as [d |] eqn:Hc.
  - split; [simpl; symmetry; now apply Hok |].
    now intros d' cache' [= <- <-].
  - destruct (extract_dependencies pkg text) as [d |] eqn:He.
    + split; [reflexivity |]. intros d0 cache' [= <- <-] p d' Hp.
      destruct (string_dec p pkg) as [-> | Hne].
      * rewrite PyDictFacts.get_set_same in Hp. congruence.
      * rewrite PyDictFacts.get_set_other in Hp by assumption. now apply Hok.
    + split; [reflexivity | discriminate].
Qed.

Lemma answer_test_source (full_graph : DependencyGraph) (p : string) :
  answer (test_source full_graph) p = test_get_deps full_graph p.
Proof. reflexivity. Qed.

Lemma answer_live_source (text : string) (p : string) :
  answer (live_source text) p = extract_dependencies p text.
Proof.
  unfold answer, live_source, live_get_deps. simpl.
  now destruct (extract_dependencies p text).
Qed.

Lemma test_source_coherent (full_graph : DependencyGraph) :
  coherent (test_source full_graph).
Proof.
  exists (fun _ => True). split; [exact I |].
  intros c p _. split; [reflexivity | trivial].
Qed.

Lemma live_source_coherent (text : string) : coherent (live_source text).
Proof.
  exists (cache_ok text). split.
  - intros p d. discriminate.
  - intros c p Hc. rewrite answer_live_source.
    exact (live_get_deps_transparent text c p Hc).
Qed.

End SourceFacts.

(* ===================================================================== *)
(** * The runs of the Builder *)
(* ===================================================================== *)

Module BuilderRuns.
Import Builder BuilderFacts.

Section WithSource.

Variable src : Source.t.
Variable max_depth : nat.
Variable start_pkg : string.

Lemma run_returned (g : DependencyGraph) (log : list string) :
  run src max_depth start_pkg = Returned g log ->
  exists st, steps src max_depth (init src start_pkg) st /\
             stack st = [] /\ result_graph st = g /\ cycle_log st = log.
Proof. apply loop_returned. Qed.

Lemma run_inv (st : state src) :
  steps src max_depth (init src start_pkg) st -> inv src st.
Proof. apply builder_inv_steps, builder_inv_init. Qed.

(** No run prints a cycle message: the on-stack set is empty whenever it
    is tested. *)
Lemma run_log_empty (g : DependencyGraph) (log : list string) :
  run src max_depth start_pkg = Returned g log -> log = [].
Proof.
  intros H. destruct (run_returned _ _ H) as (st & Hst & _ & _ & <-).
  exact (inv_log _ _ (run_inv _ Hst)).
Qed.

Hypothesis src_coherent : Source.coherent src.

(** The loop always comes to an end. *)
Lemma run_finishes : run src max_depth start_pkg <> Unfinished.
Proof.
  destruct src_coherent as (ok & Hinit & Hcall).
  unfold run. apply (loop_finishes src max_depth ok Hcall); [exact Hinit |].
  unfold potential, init. cbn [stack map list_sum]. unfold weight. cbn [fst snd].
  replace (S max_depth - 1) with max_depth by lia.
  unfold list_sum, fold_right. lia.
Qed.

(** Every key of a returned graph is within the depth limit. *)
Lemma run_keys_within_depth (g : DependencyGraph) (log : list string) :
  run src max_depth start_pkg = Returned g log ->
  forall k, In k (PyDict.keys g) ->
            exists d, d <= max_depth /\ reach_at src start_pkg k d.
Proof.
  intros H k Hk. destruct src_coherent as (ok & Hinit & Hcall).
  destruct (run_returned _ _ H) as (st & Hst & _ & <- & _).
  destruct (reach_inv_steps src max_depth ok Hinit Hcall start_pkg st Hst) as [_ R].
  exact (reach_keys _ _ _ _ R k Hk).
Qed.

(** A run that does not return a graph was ended by the source: it was
    asked for a name it does not know. *)
Lemma run_aborted (f : failure) :
  run src max_depth start_pkg = Aborted f ->
  exists pkg, f = PackageNotFound pkg /\ Source.answer src pkg = None.
Proof.
  intros H. destruct src_coherent as (ok & Hinit & Hcall).
  destruct (loop_aborted _ _ _ _ _ H) as (st & Hst & Hab).
  destruct f as [pkg | pkg].
  - exists pkg. split; [reflexivity |].
    destruct (reach_inv_steps src max_depth ok Hinit Hcall start_pkg st Hst) as [Hok _].
    apply (call_none src ok Hcall (store st)); [assumption |].
    eapply step_not_found. eassumption.
  - exfalso. eapply step_no_key_error; [apply run_inv |]; eassumption.
Qed.

End WithSource.

Lemma source_of_coherent (repo_text : string) (test_mode : bool) :
  Source.coherent (source_of repo_text test_mode).
Proof.
  destruct test_mode; [apply SourceFacts.test_source_coherent
                      | apply SourceFacts.live_source_coherent].
Qed.

(** In test mode every run returns a graph. *)
Lemma test_mode_returns (start_pkg repo_text : string) (max_depth : nat) :
  exists g, build_graph start_pkg repo_text true max_depth = Returned g [].
Proof.
  unfold build_graph.
  pose proof (source_of_coherent repo_text true) as Hc.
  destruct (run (source_of repo_text true) max_depth start_pkg) as [g log | f |] eqn:E.
  - exists g. now rewrite (run_log_empty _ _ _ _ _ E).
  - destruct (run_aborted _ _ _ Hc _ E) as (pkg & _ & Hnone). discriminate.
  - now apply run_finishes in E.
Qed.

End BuilderRuns.

(* ===================================================================== *)
(** * The Renderer never fails *)
(* ===================================================================== *)

Module RendererFacts.
Import Renderer.

Lemma in_fold_add (l : list string) (n : string) :
  forall s, In n (fold_left (fun s x => PySet.add x s) l s) <-> In n l \/ In n s.
Proof.
  induction l as [| x l IH]; intros s; simpl; [tauto |].
  rewrite IH, PySetFacts.in_add. intuition auto.
Qed.

Lemma in_all_nodes (graph : DependencyGraph) (n : string) :
  In n (all_nodes graph)
  <-> In n (PyDict.keys graph) \/ In n (List.concat (PyDict.values graph)).
Proof.
  unfold all_nodes. rewrite in_fold_add, in_app_iff. unfold PySet.empty. simpl. tauto.
Qed.

(** [id_map[name]] is defined for every node of the graph. *)
Lemma id_map_get (graph : DependencyGraph) (n : string) :
  In n (all_nodes graph) ->
  PyDict.get (id_map graph) n = Some (_make_mermaid_id n).
Proof.
  unfold id_map. induction (all_nodes graph) as [| x l IH]; simpl; [tauto |].
  intros H. destruct (String.eqb n x) eqn:E.
  - apply String.eqb_eq in E. now subst.
  - apply String.eqb_neq in E. destruct H as [-> | H]; [congruence | auto].
Qed.

Lemma render_deps_some (ids : PyDict.t string) (pkg_id : string) (deps : list string) :
  (forall d, In d deps -> PyDict.get ids d <> None) ->
  forall st, exists st', fold_left (render_dep ids pkg_id) deps (Some st) = Some st'.
Proof.
  induction deps as [| d deps IH]; intros Hall st; simpl; [now exists st |].
  destruct (PyDict.get ids d) as [dep_id |] eqn:E.
  - destruct (edge_mem (pkg_id, dep_id) (emitted_edges (declare dep_id d st)));
      apply IH; intros d' Hd'; apply Hall; now right.
  - exfalso. apply (Hall d); [now left | assumption].
Qed.

Lemma render_items_some (ids : PyDict.t string) (items : DependencyGraph) :
  (forall pkg deps, In (pkg, deps) items ->
     PyDict.get ids pkg <> None /\ forall d, In d deps -> PyDict.get ids d <> None) ->
  forall st, exists st', fold_left (render_item ids) items (Some st) = Some st'.
Proof.
  induction items as [| [pkg deps] items IH]; intros Hall st; simpl; [now exists st |].
  destruct (Hall pkg deps (or_introl eq_refl)) as [Hpkg Hdeps].
  destruct (PyDict.get ids pkg) as [pkg_id |]; [| congruence].
  destruct (render_deps_some ids pkg_id deps Hdeps (declare pkg_id pkg st)) as [st1 ->].
  apply IH. intros p ds Hin. apply Hall. now right.
Qed.

(** No lookup in [id_map] raises: the diagram is always produced. *)
Lemma mermaid_lines_total (graph : DependencyGraph) (root : string) :
  exists ls, mermaid_lines graph root = Some ls.
Proof.
  unfold mermaid_lines.
  match goal with
  | |- context [fold_left (render_item ?ids) graph (Some ?st0)] =>
      destruct (render_items_some ids graph) with (st := st0) as [st' ->]
  end.
  - intros pkg deps Hin. split.
    + rewrite id_map_get; [discriminate |]. apply in_all_nodes. left.
      unfold PyDict.keys. apply in_map_iff. now exists (pkg, deps).
    + intros d Hd. rewrite id_map_get; [discriminate |]. apply in_all_nodes. right.
      apply in_concat. exists deps. split; [| assumption].
      unfold PyDict.values. apply in_map_iff. now exists (pkg, deps).
  - eexists. reflexivity.
Qed.

End RendererFacts.


(* ===================================================================== *)
(** * Properties of the program *)
(* ===================================================================== *)

Import PyStr.

(** ** Sequencer *)

(** C1. In every sequence the Sequencer returns no name is repeated, but
    each member comes strictly before its dependencies, not after them:
    the returned sequence is the reverse of a dependencies-first order.
    On the graph [{A: [B], B: []}] with start [A] it is [[A; B]], where
    [B], a dependency of [A] and itself a key, comes after [A]. *)
Theorem load_order_puts_dependency_after_dependent :
  (forall graph start seq,
      Sequencer.compute_load_order graph start = Some seq ->
      NoDup seq
      /\ forall node dep,
           In node seq -> In dep (PyDict.get_default graph node []) ->
           SequencerFacts.before node dep seq)
  /\ Sequencer.compute_load_order [("A", ["B"]); ("B", [])] "A" = Some ["A"; "B"]
  /\ In "B" (PyDict.get_default [("A", ["B"]); ("B", [])] "A" [])
  /\ SequencerFacts.before "A" "B" ["A"; "B"]
  /\ ~ SequencerFacts.before "B" "A" ["A"; "B"].
Proof.
  split; [exact SequencerFacts.returned_sequence_dependents_first |].
  split; [reflexivity |]. split; [simpl; tauto |]. split.
  - unfold SequencerFacts.before. simpl. intuition lia.
  - unfold SequencerFacts.before. simpl. intros (_ & _ & H). lia.
Qed.

Lemma load_order_puts_dependency_after_dependent_witness :
  Sequencer.compute_load_order Fixtures.graph1 "A" = Some ["A"; "B"; "C"]
  /\ In "B" ["A"; "B"; "C"]
  /\ In "C" (PyDict.get_default Fixtures.graph1 "B" [])
  /\ SequencerFacts.before "B" "C" ["A"; "B"; "C"].
Proof.
  assert (Hrun : Sequencer.compute_load_order Fixtures.graph1 "A" = Some ["A"; "B"; "C"])
    by reflexivity.
  assert (Hin : In "B" ["A"; "B"; "C"]) by (simpl; tauto).
  assert (Hdep : In "C" (PyDict.get_default Fixtures.graph1 "B" [])) by (simpl; tauto).
  split; [exact Hrun |]. split; [exact Hin |]. split; [exact Hdep |].
  exact (proj2 (proj1 load_order_puts_dependency_after_dependent
                  Fixtures.graph1 "A" ["A"; "B"; "C"] Hrun) "B" "C" Hin Hdep).
Defined.

(** C2. For the fixture [A: B C], [B: C], [C:], [D:] with start [A] and
    depth 5 the Builder returns exactly the graph
    [{A: [B, C], B: [C], C: []}], in which [D] is not a key; on that graph
    with start [A] the Sequencer returns [[A; B; C]], not [[C; B; A]]. *)
Theorem scenario1_graph_and_order :
  Builder.build_graph "A" Fixtures.scenario1 true 5
  = Builder.Returned Fixtures.graph1 []
  /\ PyDict.get Fixtures.graph1 "D" = None
  /\ Sequencer.compute_load_order Fixtures.graph1 "A" = Some ["A"; "B"; "C"]
  /\ Sequencer.compute_load_order Fixtures.graph1 "A" <> Some ["C"; "B"; "A"].
Proof.
  split; [vm_compute; reflexivity |]. split; [reflexivity |].
  split; [reflexivity | discriminate].
Qed.

(** C6. When a cycle of the graph can be reached from the start package,
    the Sequencer comes to an end and returns [None]. *)
Theorem load_order_none_on_reachable_cycle
  (graph : DependencyGraph) (start : string) :
  (exists n, clos_refl_trans string (SequencerFacts.edge graph) start n
             /\ clos_trans string (SequencerFacts.edge graph) n n) ->
  Sequencer.run graph start = Some None
  /\ Sequencer.compute_load_order graph start = None.
Proof.
  intros (n & Hreach & Hcycle).
  assert (Hrun : Sequencer.run graph start = Some None).
  { destruct (SequencerFacts.run_returns graph start) as [[seq |] Hr]; [| assumption].
    exfalso.
    destruct (SequencerFacts.run_some_final _ _ _ Hr) as (o & _ & _ & _ & Hc).
    assert (Hs : In start (o ++ [start])) by (apply in_or_app; right; now left).
    pose proof (SequencerFacts.closed_reach _ _ _ _ Hc Hreach Hs) as Hn.
    destruct (SequencerFacts.closed_trans _ _ _ _ Hc Hcycle Hn) as [_ Hlt]. lia. }
  split; [assumption |].
  unfold Sequencer.compute_load_order. now rewrite Hrun.
Qed.

Lemma load_order_none_on_reachable_cycle_witness :
  (exists n, clos_refl_trans string (SequencerFacts.edge Fixtures.graph2) "A" n
             /\ clos_trans string (SequencerFacts.edge Fixtures.graph2) n n)
  /\ Sequencer.run Fixtures.graph2 "A" = Some None
  /\ Sequencer.compute_load_order Fixtures.graph2 "A" = None.
Proof.
  assert (H : exists n, clos_refl_trans string (SequencerFacts.edge Fixtures.graph2) "A" n
                        /\ clos_trans string (SequencerFacts.edge Fixtures.graph2) n n).
  { exists "A". split; [apply rt_refl |].
    apply t_trans with (y := "B"); apply t_step; simpl; left; reflexivity. }
  split; [exact H |].
  exact (load_order_none_on_reachable_cycle Fixtures.graph2 "A" H).
Defined.

(** C10. Whenever the Sequencer returns a sequence, the start package is
    its first element and occurs in it exactly once, whether or not the
    start package is a key of the graph. *)
Theorem load_order_starts_with_start
  (graph : DependencyGraph) (start : string) (seq : list string) :
  Sequencer.compute_load_order graph start = Some seq ->
  hd_error seq = Some start /\ count_occ string_dec seq start = 1.
Proof.
  intros H. apply SequencerFacts.compute_load_order_run in H.
  destruct (SequencerFacts.run_some_final _ _ _ H) as (o & -> & Hn & _ & _).
  rewrite rev_app_distr. simpl. split; [reflexivity |].
  destruct (string_dec start start) as [_ | N]; [| congruence].
  f_equal. apply count_occ_not_In. now rewrite <- in_rev.
Qed.

Lemma load_order_starts_with_start_witness :
  Sequencer.compute_load_order Fixtures.graph1 "A" = Some ["A"; "B"; "C"]
  /\ hd_error ["A"; "B"; "C"] = Some "A"
  /\ count_occ string_dec ["A"; "B"; "C"] "A" = 1.
Proof.
  split; [reflexivity |].
  apply (load_order_starts_with_start Fixtures.graph1 "A" ["A"; "B"; "C"]). reflexivity.
Defined.

(** ** Builder *)

(** C4. For the fixture [A: B], [B: A] with start [A] and depth 5 the
    Builder returns the graph [{A: [B], B: [A]}] and its log of cycle
    messages is empty: at its second encounter [A] is skipped as visited,
    and no cycle is reported ([BuilderRuns.run_log_empty] shows that no
    run ever reports one). *)
Theorem scenario2_graph_without_cycle_report :
  Builder.build_graph "A" Fixtures.scenario2 true 5
  = Builder.Returned Fixtures.graph2 [].
Proof. vm_compute. reflexivity. Qed.

(** C5. For every coherent source, start package and depth limit the run
    of the Builder ends, and every key of a graph it returns is reached
    from the start package by a dependency chain of at most [max_depth]
    packages; so it is for [build_graph] on every text in both modes.
    For the fixture [A: B], [B: C], [C: D] with start [A] and
    depth 2 the graph is exactly [{A: [B], B: [C]}]; [C] is named by [B]
    but is not a key. *)
Theorem builder_depth_bound :
  (forall src max_depth start_pkg,
      Source.coherent src ->
      Builder.run src max_depth start_pkg <> Builder.Unfinished
      /\ forall g log,
           Builder.run src max_depth start_pkg = Builder.Returned g log ->
           forall k, In k (PyDict.keys g) ->
                     exists d, d <= max_depth
                               /\ BuilderFacts.reach_at src start_pkg k d)
  /\ (forall start_pkg repo_text test_mode max_depth,
         Builder.build_graph start_pkg repo_text test_mode max_depth
         <> Builder.Unfinished
         /\ forall g log,
              Builder.build_graph start_pkg repo_text test_mode max_depth
              = Builder.Returned g log ->
              forall k, In k (PyDict.keys g) ->
                        exists d, d <= max_depth
                                  /\ BuilderFacts.reach_at
                                       (Builder.source_of repo_text test_mode)
                                       start_pkg k d)
  /\ Builder.build_graph "A" Fixtures.scenario3 true 2
     = Builder.Returned Fixtures.graph3 []
  /\ PyDict.get Fixtures.graph3 "C" = None
  /\ In "C" (List.concat (PyDict.values Fixtures.graph3)).
Proof.
  assert (General : forall src max_depth start_pkg,
             Source.coherent src ->
             Builder.run src max_depth start_pkg <> Builder.Unfinished
             /\ forall g log,
                  Builder.run src max_depth start_pkg = Builder.Returned g log ->
                  forall k, In k (PyDict.keys g) ->
                            exists d, d <= max_depth
                                      /\ BuilderFacts.reach_at src start_pkg k d).
  { intros src max_depth start_pkg Hc. split.
    - now apply BuilderRuns.run_finishes.
    - intros g log. now apply BuilderRuns.run_keys_within_depth. }
  split; [exact General |]. split.
  - intros start_pkg repo_text test_mode max_depth.
    apply General, BuilderRuns.source_of_coherent.
  - split; [vm_compute; reflexivity |]. split; [reflexivity | simpl; tauto].
Qed.

Lemma builder_depth_bound_witness :
  Source.coherent Fixtures.source3
  /\ Builder.run Fixtures.source3 2 "A" = Builder.Returned Fixtures.graph3 []
  /\ In "B" (PyDict.keys Fixtures.graph3)
  /\ exists d, d <= 2 /\ BuilderFacts.reach_at Fixtures.source3 "A" "B" d.
Proof.
  assert (Hc : Source.coherent Fixtures.source3)
    by apply BuilderRuns.source_of_coherent.
  assert (Hrun : Builder.run Fixtures.source3 2 "A" = Builder.Returned Fixtures.graph3 [])
    by (vm_compute; reflexivity).
  assert (Hkey : In "B" (PyDict.keys Fixtures.graph3)) by (simpl; tauto).
  split; [exact Hc |]. split; [exact Hrun |]. split; [exact Hkey |].
  exact (proj2 (proj1 builder_depth_bound Fixtures.source3 2 "A" Hc)
           Fixtures.graph3 [] Hrun "B" Hkey).
Defined.

(** C7. At every iteration boundary of the Builder's loop, for every
    source, no name is both visited and on-stack, every key of the graph
    is visited, every entry of the graph stays what it is in all later
    states, and an iteration that changes the graph assigns one key that
    had no entry before. *)
Theorem builder_loop_invariants
  (src : Source.t) (max_depth : nat) (start_pkg : string) (st : Builder.state src) :
  BuilderFacts.steps src max_depth (Builder.init src start_pkg) st ->
  (forall n, ~ (In n (Builder.visited st) /\ In n (Builder.in_stack st)))
  /\ (forall k, In k (PyDict.keys (Builder.result_graph st)) ->
                In k (Builder.visited st))
  /\ (forall st', BuilderFacts.steps src max_depth st st' ->
        forall k v, PyDict.get (Builder.result_graph st) k = Some v ->
                    PyDict.get (Builder.result_graph st') k = Some v)
  /\ (forall st', BuilderFacts.step_to src max_depth st st' ->
        Builder.result_graph st' = Builder.result_graph st
        \/ exists node deps,
             PyDict.get (Builder.result_graph st) node = None
             /\ Builder.result_graph st'
                = PyDict.set (Builder.result_graph st) node deps).
Proof.
  intros Hst. pose proof (BuilderRuns.run_inv _ _ _ _ Hst) as I.
  split; [| split; [| split]].
  - intros n [_ Hin]. rewrite (BuilderFacts.inv_in_stack _ _ I) in Hin. exact Hin.
  - intros k Hk. now apply (BuilderFacts.inv_keys _ _ I).
  - intros st' Hst'. eapply BuilderFacts.steps_keep_entries; eassumption.
  - intros st' Hstep. eapply BuilderFacts.step_assigns_fresh; eassumption.
Qed.

Lemma builder_loop_invariants_witness :
  BuilderFacts.steps Fixtures.source2 5 (Builder.init Fixtures.source2 "A") Fixtures.state2
  /\ (forall n, ~ (In n (Builder.visited Fixtures.state2)
                   /\ In n (Builder.in_stack Fixtures.state2)))
  /\ (forall k, In k (PyDict.keys (Builder.result_graph Fixtures.state2)) ->
                In k (Builder.visited Fixtures.state2)).
Proof.
  assert (Hst : BuilderFacts.steps Fixtures.source2 5
                  (Builder.init Fixtures.source2 "A") Fixtures.state2).
  { apply Relation_Operators.rtn1_trans with (y := Builder.init Fixtures.source2 "A");
      [| apply Relation_Operators.rtn1_refl].
    vm_compute. reflexivity. }
  split; [exact Hst |].
  destruct (builder_loop_invariants Fixtures.source2 5 "A" Fixtures.state2 Hst)
    as (H1 & H2 & _).
  split; assumption.
Defined.

(** ** Sources *)

(** C3, as stated, fails in test mode: the name [Z] is absent from the
    fixture [A: B], [B: C], [C: D], yet looking it up does not fail. *)
Lemma test_mode_lookup_of_absent_name_succeeds :
  ~ (Source.test_get_deps (Source.load_test_graph Fixtures.scenario3) "Z" = None
     <-> PyDict.get (Source.load_test_graph Fixtures.scenario3) "Z" = None).
Proof.
  intros [_ H]. assert (E : PyDict.get (Source.load_test_graph Fixtures.scenario3) "Z" = None)
    by reflexivity.
  specialize (H E). discriminate.
Qed.

(** C3, amended. In test mode the lookup never fails: a name the fixture
    has yields the fixture's entry for it, and a name absent from the
    fixture yields the empty list.  In live mode the lookup ends
    the run with the "not found" message when no block of the index text
    starts with ["Package: "] followed by the name, and it does not when
    the first line of some block is exactly ["Package: "] followed by the
    name. *)
Theorem get_deps_failure_by_mode :
  (forall full_graph p,
      Source.test_get_deps full_graph p <> None
      /\ (forall v, PyDict.get full_graph p = Some v ->
                    Source.test_get_deps full_graph p = Some v)
      /\ (PyDict.get full_graph p = None -> Source.test_get_deps full_graph p = Some []))
  /\ (forall p text,
         (forall b, In b (split (nl ++ nl) text) ->
                    startswith b ("Package: " ++ p) = false) ->
         Source.extract_dependencies p text = None)
  /\ (forall p text,
         (exists b, In b (split (nl ++ nl) text) /\ SourceFacts.heads_stanza p b) ->
         Source.extract_dependencies p text <> None).
Proof.
  split; [| split].
  - intros full_graph p. unfold Source.test_get_deps, PyDict.get_default.
    split; [discriminate |]. split; [intros v -> | intros ->]; reflexivity.
  - intros p text H. now apply SourceFacts.find_block_none.
  - intros p text (b & Hin & Hb). apply SourceFacts.find_block_some.
    exists b. split; [assumption |]. now apply SourceFacts.heads_stanza_startswith.
Qed.

Lemma get_deps_failure_by_mode_witness :
  Source.test_get_deps (Source.load_test_graph Fixtures.scenario3) "A" = Some ["B"]
  /\ Source.test_get_deps (Source.load_test_graph Fixtures.scenario3) "Z" = Some []
  /\ Source.extract_dependencies "bar" Fixtures.index_foo = None
  /\ Source.extract_dependencies "foo" Fixtures.index_foo <> None.
Proof.
  destruct get_deps_failure_by_mode as (Htest & Hnone & Hsome).
  split; [| split; [| split]].
  - apply (Htest (Source.load_test_graph Fixtures.scenario3) "A"). reflexivity.
  - apply (Htest (Source.load_test_graph Fixtures.scenario3) "Z"). reflexivity.
  - apply (Hnone "bar" Fixtures.index_foo).
    intros b Hb. vm_compute in Hb. destruct Hb as [<- | []]. reflexivity.
  - apply (Hsome "foo" Fixtures.index_foo).
    exists Fixtures.index_foo. split; [vm_compute; now left |].
    right. reflexivity.
Defined.

(** C9. The live lookup matches a stanza by prefix: in an index whose
    stanza of [foobar] comes before that of [foo], the lookup of [foo]
    returns the dependencies of [foobar], not those of the stanza of
    [foo]. *)
Theorem extract_dependencies_matches_by_prefix :
  prefix "foo" "foobar" = true /\ "foo" <> "foobar"
  /\ Source.extract_dependencies "foo" Fixtures.index_foobar_foo = Some ["libbar"]
  /\ Source.extract_dependencies "foobar" Fixtures.index_foobar_foo = Some ["libbar"]
  /\ Source.extract_dependencies "foo" Fixtures.index_foo = Some ["libc6"].
Proof. repeat split; try reflexivity. discriminate. Qed.

(** ** Renderer *)

(** C8. The identifiers of the renderer are not injective: the distinct
    names [a.b] and [a_b] both get the identifier [a_b].  In the diagram
    of a graph with both names there is one node declaration for that
    identifier (labelled [a.b]), the two edges of [app] to them are one
    edge, and the edges of both leave the same node. *)
Theorem mermaid_id_collision :
  "a.b" <> "a_b"
  /\ Renderer._make_mermaid_id "a.b" = "a_b"
  /\ Renderer._make_mermaid_id "a_b" = "a_b"
  /\ Renderer.mermaid_lines Fixtures.graph_dots "app"
     = Some ["graph TD";
             Renderer.node_line "app" "app";
             Renderer.node_line "a_b" "a.b";
             Renderer.edge_line "app" "a_b";
             Renderer.node_line "x" "x";
             Renderer.edge_line "a_b" "x";
             Renderer.node_line "y" "y";
             Renderer.edge_line "a_b" "y";
             "class app root;";
             "classDef root fill:#f9f,stroke:#333,stroke-width:2px;"].
Proof. repeat split; try reflexivity. discriminate. Qed.

(* ===================================================================== *)
(** * The Sequencer: what is visited, and when a cycle is reported *)
(* ===================================================================== *)

Module SequencerReach.
Import Sequencer SequencerFacts.

Section WithGraph.

Variable graph : DependencyGraph.
Variable start : string.

(** [reach n]: [n] is the start package or can be reached from it along
    the edges of the graph. *)
Definition reach (n : string) : Prop :=
  clos_refl_trans string (edge graph) start n.

(** Every entry of the stack descends from every marker below it. *)
Fixpoint descends (stk : list (string * bool)) : Prop :=
  match stk with
  | [] => True
  | (n, _) :: rest =>
      (forall m, In m (t_nodes rest) -> clos_trans string (edge graph) m n)
      /\ descends rest
  end.

Record visit_inv (st : state) : Prop := mk_visit_inv {
  visit_stack : forall n b, In (n, b) (stack st) -> reach n;
  visit_order : forall n, In n (order st) -> reach n;
  visit_descends : descends (stack st)
}.

Lemma seq_visit_inv_init : visit_inv (init start).
Proof.
  constructor; simpl.
  - intros n b [[= <- <-] | []]. apply rt_refl.
  - tauto.
  - split; [intros m [] | trivial].
Qed.

Lemma descends_pushed (node : string) (rest : list (string * bool)) (l : list (string * bool)) :
  (forall e, In e l -> snd e = false /\ edge graph node (fst e)) ->
  (forall m, In m (t_nodes rest) -> clos_trans string (edge graph) m node) ->
  descends rest ->
  descends (l ++ (node, true) :: rest).
Proof.
  intros Hl Hnode Hrest. induction l as [| [d b] l IH]; simpl.
  - split; assumption.
  - destruct (Hl (d, b) (or_introl eq_refl)) as [_ Hd]. simpl in Hd.
    split; [| apply IH; intros e He; apply Hl; now right].
    intros m Hm. apply in_t_nodes, in_app_or in Hm as [Hm | [[= ->] | Hm]].
    + destruct (Hl (m, true) (or_intror Hm)) as [Hf _]. discriminate.
    + now apply t_step.
    + apply t_trans with (y := node); [| now apply t_step].
      apply Hnode. now apply in_t_nodes.
Qed.

Lemma seq_visit_inv_step (st st' : state) :
  visit_inv st -> step graph st = Continue st' -> visit_inv st'.
Proof.
  intros [Rs Ro Rd] H.
  destruct (step_inv _ _ _ H)
    as [node rest Hs Hv Hi -> | node rest Hs Hv -> | node rest Hs Hv -> | node rest Hs Hi Hv ->];
    rewrite Hs in *; simpl in Rd; destruct Rd as [Rtop Rrest].
  - constructor; simpl; try assumption.
    intros n b Hin. apply (Rs n b). now right.
  - constructor; simpl; try assumption.
    intros n b Hin. apply (Rs n b). now right.
  - constructor; simpl; try assumption.
    + intros n b Hin. apply (Rs n b). now right.
    + intros n Hn. apply in_app_or in Hn as [Hn | [<- | []]]; [now apply Ro |].
      apply (Rs node true). now left.
  - assert (Hnode : reach node) by (apply (Rs node false); now left).
    constructor; simpl; try assumption.
    + intros n b Hin. apply in_app_or in Hin as [Hin | [[= <- <-] | Hin]].
      * apply in_unexpanded in Hin as [_ Hin].
        apply rt_trans with (y := node); [assumption | now apply rt_step].
      * assumption.
      * apply (Rs n b). now right.
    + apply descends_pushed; try assumption.
      intros [d b] He. apply in_unexpanded in He as [-> He]. now split.
Qed.

Lemma seq_loop_result (fuel : nat) (st : state) (r : option (list string)) :
  inv graph start st -> visit_inv st -> loop graph fuel st = Some r ->
  exists st', inv graph start st' /\ visit_inv st' /\ step graph st' = Return r.
Proof.
  revert st. induction fuel as [| fuel IH]; intros st I R H; [discriminate |].
  simpl in H. destruct (step graph st) as [st' | r'] eqn:E.
  - apply (IH st'); [eapply sequencer_inv_step | eapply seq_visit_inv_step |]; eassumption.
  - injection H as ->. now exists st.
Qed.

Lemma step_return_none (st : state) :
  step graph st = Return None ->
  exists node rest, stack st = (node, false) :: rest /\ In node (in_stack st).
Proof.
  unfold step. destruct (stack st) as [| [node expanded] rest]; [discriminate |].
  destruct (PySet.mem node (in_stack st)) eqn:Hi; destruct expanded; simpl;
    try (destruct (PySet.mem node (visited st)); discriminate).
  intros _. exists node, rest. split; [reflexivity |].
  now apply PySetFacts.mem_true_iff.
Qed.

(** A run that returns [None] has met a cycle that can be reached from
    the start package. *)
Lemma run_none_cycle :
  run graph start = Some None ->
  exists n, reach n /\ clos_trans string (edge graph) n n.
Proof.
  intros H. unfold run in H.
  destruct (seq_loop_result _ _ _ (sequencer_inv_init graph start) seq_visit_inv_init H)
    as (st & I & R & Hret).
  destruct (step_return_none _ Hret) as (node & rest & Hs & Hin).
  exists node. split.
  - apply (visit_stack _ R node false). rewrite Hs. now left.
  - pose proof (visit_descends _ R) as Hd. rewrite Hs in Hd. destruct Hd as [Htop _].
    apply Htop. rewrite (inv_in_stack _ _ _ I), Hs, <- in_rev in Hin. exact Hin.
Qed.

(** The members of a returned sequence are the start package and what can
    be reached from it. *)
Lemma run_some_members (seq : list string) :
  run graph start = Some (Some seq) -> forall n, In n seq <-> reach n.
Proof.
  intros H n. pose proof H as H0. unfold run in H0.
  destruct (seq_loop_result _ _ _ (sequencer_inv_init graph start) seq_visit_inv_init H0)
    as (st & I & R & Hret).
  apply step_return_some in Hret as [_ ->].
  destruct (run_some_final _ _ _ H) as (o & Ho & _ & _ & Hc).
  apply (f_equal (@rev string)) in Ho. rewrite !rev_involutive in Ho.
  split.
  - intros Hn. apply (visit_order _ R). now apply in_rev.
  - intros Hn. rewrite <- in_rev, Ho.
    apply (closed_reach graph (o ++ [start]) start n Hc Hn).
    apply in_or_app. right. now left.
Qed.

End WithGraph.

End SequencerReach.

(* ===================================================================== *)
(** * The Builder: the shape of the graph it returns *)
(* ===================================================================== *)

Module BuilderMore.
Import Builder BuilderFacts.

Lemma set_fresh {V : Type} (d : PyDict.t V) (k : string) (v : V) :
  ~ In k (PyDict.keys d) -> PyDict.set d k v = d ++ [(k, v)].
Proof.
  induction d as [| [k0 v0] d IH]; simpl; intros H; [reflexivity |].
  destruct (String.eqb k k0) eqn:E.
  - apply String.eqb_eq in E. subst. tauto.
  - rewrite IH; tauto.
Qed.

Lemma keys_set_fresh {V : Type} (d : PyDict.t V) (k : string) (v : V) :
  ~ In k (PyDict.keys d) -> PyDict.keys (PyDict.set d k v) = PyDict.keys d ++ [k].
Proof.
  intros H. rewrite set_fresh by assumption. unfold PyDict.keys. now rewrite map_app.
Qed.

Lemma get_of_entry {V : Type} (d : PyDict.t V) (k : string) (v : V) :
  NoDup (PyDict.keys d) -> In (k, v) d -> PyDict.get d k = Some v.
Proof.
  induction d as [| [k0 v0] d IH]; simpl; [tauto |].
  intros Hnd Hin. apply NoDup_cons_iff in Hnd as [Hk0 Hnd].
  destruct (String.eqb k k0) eqn:E.
  - apply String.eqb_eq in E. subst k0. destruct Hin as [[= ->] | Hin]; [reflexivity |].
    exfalso. apply Hk0. unfold PyDict.keys. apply in_map_iff. now exists (k, v).
  - apply String.eqb_neq in E. destruct Hin as [[= -> ->] | Hin]; [congruence | auto].
Qed.

Section WithSource.

Variable src : Source.t.
Variable max_depth : nat.
Variable start_pkg : string.

Definition reachable (st : state src) : Prop :=
  steps src max_depth (init src start_pkg) st.

Lemma reachable_ind (P : state src -> Prop) :
  P (init src start_pkg) ->
  (forall st st', reachable st -> P st -> step_to src max_depth st st' -> P st') ->
  forall st, reachable st -> P st.
Proof.
  intros H0 Hstep st H. unfold reachable in *.
  induction H as [| a b Hab Ha IH]; [assumption |].
  eapply Hstep; eassumption.
Qed.

(** ** The keys are the visited packages, in the order of their visit *)

Lemma keys_are_visited :
  forall st : state src, reachable st ->
  PyDict.keys (result_graph st) = visited st /\ NoDup (visited st).
Proof.
  apply reachable_ind.
  - split; [reflexivity | constructor].
  - intros st st' Hr [Hk Hnd] H.
    destruct (step_cases _ _ _ _ H) as (node & depth & rest & Hs & Hc).
    destruct Hc as [(_ & Hv' & _ & Hg' & _)
                   | (deps & store1 & s2 & Hd & Hv & Hi & Hg & Hr' & ->)].
    + rewrite Hg', Hv'. now split.
    + simpl. rewrite keys_set_fresh by (now rewrite Hk).
      rewrite PySetFacts.add_fresh by assumption. rewrite Hk. split; [reflexivity |].
      apply NoDup_app; [assumption | repeat constructor; intros [] |].
      intros x Hx [<- | []]. contradiction.
Qed.

(** ** The start package *)

Lemma start_pending_or_visited :
  1 <= max_depth ->
  forall st : state src, reachable st ->
  In start_pkg (visited st) \/ In (start_pkg, 1) (stack st).
Proof.
  intros Hd. apply reachable_ind.
  - right. now left.
  - intros st st' Hr IH H. pose proof (builder_inv_steps _ _ _ _ (builder_inv_init _ _) Hr) as I.
    destruct IH as [Hv | Hin].
    + left. destruct (step_cases _ _ _ _ H) as (node & depth & rest & Hs & Hc).
      destruct Hc as [(_ & -> & _) | (deps & store1 & s2 & _ & _ & _ & _ & _ & ->)];
        [assumption | simpl; apply PySetFacts.in_add; now right].
    + unfold step_to, step in H.
      destruct (stack st) as [| [node depth] rest] eqn:Hs; [discriminate |].
      destruct Hin as [[= -> ->] | Hin].
      * apply Nat.ltb_ge in Hd. rewrite Hd in H.
        destruct (PySet.mem start_pkg (visited st)) eqn:Hv.
        { injection H as <-. left. now apply PySetFacts.mem_true_iff. }
        rewrite (inv_in_stack _ _ I) in H.
        change (PySet.mem start_pkg []) with false in H. cbv beta iota zeta in H.
        destruct (Source.get_deps src (store st) start_pkg) as [[deps store1] |];
          [| discriminate].
        rewrite PySetFacts.remove_add in H by (intros []).
        injection H as <-. left. simpl. apply PySetFacts.in_add. now left.
      * right.
        destruct (max_depth <? depth); [injection H as <-; assumption |].
        destruct (PySet.mem node (visited st)); [injection H as <-; assumption |].
        destruct (PySet.mem node (in_stack st)); [injection H as <-; assumption |].
        destruct (Source.get_deps src (store st) node) as [[deps store1] |];
          [| discriminate].
        destruct (PySet.remove node (PySet.add node (in_stack st))); [| discriminate].
        injection H as <-. simpl. rewrite push_all_rev. apply in_or_app. now right.
Qed.

(** ** Every key can be reached from the start package inside the graph *)

Definition graph_reach (g : DependencyGraph) (n : string) : Prop :=
  clos_refl_trans string (SequencerFacts.edge g) start_pkg n.

Lemma graph_reach_mono (g g' : DependencyGraph) (n : string) :
  (forall k v, PyDict.get g k = Some v -> PyDict.get g' k = Some v) ->
  graph_reach g n -> graph_reach g' n.
Proof.
  intros Hsub H. unfold graph_reach in *.
  induction H as [a b He | a | a b c _ IH1 _ IH2].
  - apply rt_step. unfold SequencerFacts.edge, SequencerFacts.deps, PyDict.get_default in *.
    destruct (PyDict.get g a) as [l |] eqn:E; [| contradiction].
    now rewrite (Hsub a l E).
  - apply rt_refl.
  - eapply rt_trans; eassumption.
Qed.

Lemma keys_graph_reachable :
  forall st : state src, reachable st ->
  (forall n d, In (n, d) (stack st) -> graph_reach (result_graph st) n)
  /\ (forall k, In k (PyDict.keys (result_graph st)) -> graph_reach (result_graph st) k).
Proof.
  apply reachable_ind.
  - split; simpl; [| tauto]. intros n d [[= <- <-] | []]. apply rt_refl.
  - intros st st' Hr [Hstack Hkeys] H.
    pose proof (builder_inv_steps _ _ _ _ (builder_inv_init _ _) Hr) as I.
    pose proof (step_keeps_entries _ _ _ _ I H) as Hsub.
    destruct (step_cases _ _ _ _ H) as (node & depth & rest & Hs & Hc).
    destruct Hc as [(Hs' & _ & _ & Hg' & _)
                   | (deps & store1 & s2 & Hd & Hv & Hi & Hg & Hr' & ->)].
    + rewrite Hg'. split; [| assumption].
      intros n d Hin. apply (Hstack n d). rewrite Hs, <- Hs'. now right.
    + simpl in *.
      assert (Hnode : graph_reach (PyDict.set (result_graph st) node deps) node).
      { apply (graph_reach_mono (result_graph st)); [assumption |].
        apply (Hstack node depth). rewrite Hs. now left. }
      split.
      * intros n d Hin. apply in_app_or in Hin as [Hin | Hin].
        -- apply in_map_iff in Hin as (dep & [= <- <-] & Hdep).
           apply rt_trans with (y := node); [assumption |]. apply rt_step.
           unfold SequencerFacts.edge, SequencerFacts.deps, PyDict.get_default.
           now rewrite PyDictFacts.get_set_same.
        -- apply (graph_reach_mono (result_graph st)); [assumption |].
           apply (Hstack n d). rewrite Hs. now right.
      * intros k Hk. apply PyDictFacts.in_keys_set in Hk as [-> | Hk]; [assumption |].
        apply (graph_reach_mono (result_graph st)); [assumption | now apply Hkeys].
Qed.

(** ** Aborted runs *)

Lemma step_not_found_top (st : state src) (pkg : string) :
  step src max_depth st = Abort (PackageNotFound pkg) ->
  exists depth rest, stack st = (pkg, depth) :: rest /\ depth <= max_depth.
Proof.
  unfold step. destruct (stack st) as [| [node depth] rest]; [discriminate |].
  destruct (max_depth <? depth) eqn:Hd; [discriminate |].
  destruct (PySet.mem node (visited st)); [discriminate |].
  destruct (PySet.mem node (in_stack st)); [discriminate |].
  destruct (Source.get_deps src (store st) node) as [[deps store1] |].
  - destruct (PySet.remove node (PySet.add node (in_stack st))); discriminate.
  - intros [= <-]. exists depth, rest. split; [reflexivity | now apply Nat.ltb_ge].
Qed.

End WithSource.

End BuilderMore.

(* ===================================================================== *)
(** * The Builder and its source *)
(* ===================================================================== *)

Module BuilderSource.
Import Builder BuilderFacts BuilderMore.

(** Every entry of the graph is the answer of the source for its key. *)
Lemma entries_are_answers (src : Source.t) (max_depth : nat) (start_pkg : string) :
  Source.coherent src ->
  forall st : state src, reachable src max_depth start_pkg st ->
  forall k v, PyDict.get (result_graph st) k = Some v -> Source.answer src k = Some v.
Proof.
  intros (ok & Hinit & Hcall).
  apply (reachable_ind src max_depth start_pkg
           (fun st => forall k v, PyDict.get (result_graph st) k = Some v ->
                                  Source.answer src k = Some v)).
  - intros k v. discriminate.
  - intros st st' Hr IH H k v.
    destruct (reach_inv_steps src max_depth ok Hinit Hcall start_pkg st Hr) as [Hok _].
    destruct (step_cases _ _ _ _ H) as (node & depth & rest & Hs & Hc).
    destruct Hc as [(_ & _ & _ & -> & _)
                   | (deps & store1 & s2 & Hd & Hv & Hi & Hg & Hr' & ->)]; [apply IH |].
    simpl. destruct (string_dec k node) as [-> | Hne].
    + rewrite PyDictFacts.get_set_same. intros [= <-].
      now destruct (call_some src ok Hcall _ _ _ _ Hok Hg).
    + rewrite PyDictFacts.get_set_other by assumption. apply IH.
Qed.

(** In live mode the memo holds exactly the graph built so far: every
    lookup of the Builder misses it. *)
Lemma live_store_is_graph (text : string) (max_depth : nat) (start_pkg : string) :
  forall st : state (Source.live_source text),
    reachable (Source.live_source text) max_depth start_pkg st ->
    store st = result_graph st.
Proof.
  apply (reachable_ind (Source.live_source text) max_depth start_pkg
           (fun st => store st = result_graph st)); [reflexivity |].
  intros st st' Hr IH H.
  pose proof (builder_inv_steps _ _ _ _ (builder_inv_init _ start_pkg) Hr) as I.
  destruct (step_cases _ _ _ _ H) as (node & depth & rest & Hs & Hc).
  destruct Hc as [(_ & _ & _ & -> & -> & _)
                 | (deps & store1 & s2 & Hd & Hv & Hi & Hg & Hr' & ->)]; [assumption |].
  simpl in *. unfold Source.live_get_deps in Hg. rewrite IH in Hg.
  assert (Hnone : PyDict.get (result_graph st) node = None).
  { apply PyDictFacts.get_none_iff. now rewrite (inv_keys _ _ I). }
  rewrite Hnone in Hg.
  destruct (Source.extract_dependencies node text) as [d |]; [| discriminate].
  now injection Hg as <- <-.
Qed.

End BuilderSource.

(* ===================================================================== *)
(** * The Renderer: identifiers and the lines of the diagram *)
(* ===================================================================== *)

Module RendererMore.
Import PyStr Renderer.

(** ** Identifiers *)

Fixpoint all_word (s : string) : bool :=
  match s with
  | EmptyString => true
  | String c r => is_word c && all_word r
  end.

(** An identifier that needs no escaping: not empty, made of letters,
    digits and underscores, and not starting with a digit. *)
Definition valid_id (id : string) : Prop :=
  id <> EmptyString /\ all_word id = true /\
  forall c r, id = String c r -> isdigit c = false.

Lemma sub_non_word_all_word (s : string) : all_word (sub_non_word s) = true.
Proof.
  induction s as [| c s IH]; simpl; [reflexivity |].
  rewrite IH, andb_true_r. destruct (is_word c) eqn:E; [assumption | reflexivity].
Qed.

Lemma sub_non_word_fixed (s : string) : all_word s = true -> sub_non_word s = s.
Proof.
  induction s as [| c s IH]; simpl; [reflexivity |].
  intros H. apply andb_true_iff in H as [Hc Hs]. now rewrite Hc, IH.
Qed.

Lemma make_id_valid (name : string) : valid_id (_make_mermaid_id name).
Proof.
  unfold _make_mermaid_id. pose proof (sub_non_word_all_word name) as Hw.
  destruct (sub_non_word name) as [| c r] eqn:E.
  - simpl. repeat split; [discriminate | intros c r [= <- _]; reflexivity].
  - cbn [is_empty]. destruct (isdigit c) eqn:Hd.
    + repeat split; [discriminate | simpl; exact Hw | intros c' r' [= <- _]; reflexivity].
    + repeat split; [discriminate | exact Hw | intros c' r' [= <- _]; exact Hd].
Qed.

Lemma make_id_fixed (id : string) : valid_id id -> _make_mermaid_id id = id.
Proof.
  intros (Hne & Hw & Hd). unfold _make_mermaid_id.
  rewrite (sub_non_word_fixed id Hw).
  destruct id as [| c r]; [congruence |].
  cbn [is_empty]. now rewrite (Hd c r eq_refl).
Qed.

(** ** The lines of the diagram *)

Lemma edge_mem_iff (e : string * string) (s : list (string * string)) :
  edge_mem e s = true <-> In e s.
Proof.
  unfold edge_mem. rewrite existsb_exists. split.
  - intros ([a b] & Hin & H). apply andb_true_iff in H as [H1 H2]. simpl in *.
    apply String.eqb_eq in H1, H2. destruct e as [x y]. simpl in *. now subst.
  - intros H. exists e. split; [assumption |]. now rewrite !String.eqb_refl.
Qed.

(** Every emitted identifier has its declaration among the lines, and
    every emitted edge its edge line. *)
Definition sound (st : state) : Prop :=
  (forall id, In id (emitted_nodes st) -> exists name, In (node_line id name) (lines st))
  /\ (forall a b, In (a, b) (emitted_edges st) -> In (edge_line a b) (lines st)).

Definition grows (st st' : state) : Prop :=
  (exists more, lines st' = lines st ++ more)
  /\ incl (emitted_nodes st) (emitted_nodes st')
  /\ incl (emitted_edges st) (emitted_edges st').

Lemma grows_refl (st : state) : grows st st.
Proof.
  split; [exists []; now rewrite app_nil_r | split; apply incl_refl].
Qed.

Lemma grows_trans (a b c : state) : grows a b -> grows b c -> grows a c.
Proof.
  intros ([m1 H1] & N1 & E1) ([m2 H2] & N2 & E2). split; [| split].
  - exists (m1 ++ m2). now rewrite H2, H1, app_assoc.
  - eapply incl_tran; eassumption.
  - eapply incl_tran; eassumption.
Qed.

Lemma declare_spec (id name : string) (st : state) :
  sound st ->
  sound (declare id name st) /\ grows st (declare id name st)
  /\ In id (emitted_nodes (declare id name st)).
Proof.
  intros [Hn He]. unfold declare.
  destruct (PySet.mem id (emitted_nodes st)) eqn:E.
  - split; [now split |]. split; [apply grows_refl | now apply PySetFacts.mem_true_iff].
  - split; [| split].
    + split; simpl.
      * intros i Hi. apply PySetFacts.in_add in Hi as [-> | Hi].
        -- exists name. apply in_or_app. right. now left.
        -- destruct (Hn i Hi) as [nm Hnm]. exists nm. apply in_or_app. now left.
      * intros a b Hab. apply in_or_app. left. now apply He.
    + split; [now exists [node_line id name] |]. simpl. split; [| apply incl_refl].
      intros x Hx. apply PySetFacts.in_add. now right.
    + simpl. apply PySetFacts.in_add. now left.
Qed.

Lemma render_dep_spec (ids : PyDict.t string) (pkg_id dep dep_id : string) (st : state) :
  PyDict.get ids dep = Some dep_id -> sound st ->
  exists st', render_dep ids pkg_id (Some st) dep = Some st'
              /\ sound st' /\ grows st st'
              /\ In dep_id (emitted_nodes st') /\ In (pkg_id, dep_id) (emitted_edges st').
Proof.
  intros Hg Hs. unfold render_dep. rewrite Hg.
  destruct (declare_spec dep_id dep st Hs) as ([Hn He] & Hgr & Hin).
  destruct (edge_mem (pkg_id, dep_id) (emitted_edges (declare dep_id dep st))) eqn:E.
  - eexists. split; [reflexivity |]. split; [now split |].
    split; [assumption |]. split; [assumption | now apply edge_mem_iff].
  - eexists. split; [reflexivity |]. split; [| split; [| split]].
    + split; simpl.
      * intros i Hi. destruct (Hn i Hi) as [nm Hnm]. exists nm. apply in_or_app. now left.
      * intros a b Hab. apply in_app_or in Hab as [Hab | [[= <- <-] | []]].
        -- apply in_or_app. left. now apply He.
        -- apply in_or_app. right. now left.
    + eapply grows_trans; [exact Hgr |]. split; [now eexists |]. simpl.
      split; [apply incl_refl | apply incl_appl, incl_refl].
    + exact Hin.
    + simpl. apply in_or_app. right. now left.
Qed.

Lemma render_deps_spec (ids : PyDict.t string) (f : string -> string) (pkg_id : string)
  (deps : list string) :
  (forall d, In d deps -> PyDict.get ids d = Some (f d)) ->
  forall st, sound st ->
  exists st', fold_left (render_dep ids pkg_id) deps (Some st) = Some st'
              /\ sound st' /\ grows st st'
              /\ forall d, In d deps -> In (f d) (emitted_nodes st')
                                        /\ In (pkg_id, f d) (emitted_edges st').
Proof.
  induction deps as [| d deps IH]; intros Hall st Hs; cbn [fold_left].
  - exists st. split; [reflexivity |]. split; [assumption |].
    split; [apply grows_refl | contradiction].
  - destruct (render_dep_spec ids pkg_id d (f d) st (Hall d (or_introl eq_refl)) Hs)
      as (st1 & -> & Hs1 & Hg1 & Hn1 & He1).
    destruct (IH (fun x Hx => Hall x (or_intror Hx)) st1 Hs1) as (st2 & -> & Hs2 & Hg2 & Hall2).
    exists st2. split; [reflexivity |]. split; [assumption |].
    split; [eapply grows_trans; eassumption |].
    intros x [<- | Hx]; [| now apply Hall2].
    destruct Hg2 as (_ & Hn & He). split; [now apply Hn | now apply He].
Qed.

Lemma render_items_spec (ids : PyDict.t string) (f : string -> string)
  (items : DependencyGraph) :
  (forall pkg deps, In (pkg, deps) items ->
     PyDict.get ids pkg = Some (f pkg)
     /\ forall d, In d deps -> PyDict.get ids d = Some (f d)) ->
  forall st, sound st ->
  exists st', fold_left (render_item ids) items (Some st) = Some st'
              /\ sound st' /\ grows st st'
              /\ forall pkg deps, In (pkg, deps) items ->
                   In (f pkg) (emitted_nodes st')
                   /\ forall d, In d deps -> In (f d) (emitted_nodes st')
                                             /\ In (f pkg, f d) (emitted_edges st').
Proof.
  induction items as [| [pkg deps] items IH]; intros Hall st Hs; cbn [fold_left].
  - exists st. split; [reflexivity |]. split; [assumption |].
    split; [apply grows_refl | contradiction].
  - destruct (Hall pkg deps (or_introl eq_refl)) as [Hpkg Hdeps].
    unfold render_item at 2. rewrite Hpkg.
    destruct (declare_spec (f pkg) pkg st Hs) as (Hs0 & Hg0 & Hn0).
    destruct (render_deps_spec ids f (f pkg) deps Hdeps _ Hs0) as (st1 & -> & Hs1 & Hg1 & Hall1).
    destruct (IH (fun p ds H => Hall p ds (or_intror H)) st1 Hs1)
      as (st2 & -> & Hs2 & Hg2 & Hall2).
    exists st2. split; [reflexivity |]. split; [assumption |].
    split; [eapply grows_trans; [eassumption |]; eapply grows_trans; eassumption |].
    intros p ds [[= <- <-] | Hin]; [| now apply Hall2].
    destruct Hg1 as (_ & Hn1 & _). destruct Hg2 as (_ & Hn2 & He2). split.
    + apply Hn2, Hn1, Hn0.
    + intros d Hd. destruct (Hall1 d Hd) as [A B]. split; [now apply Hn2 | now apply He2].
Qed.

(** The identifier of the root is the sanitised root name, whether the
    root is in [id_map] or not. *)
Lemma root_id_is_sanitised (graph : DependencyGraph) (root : string) :
  PyDict.get_default (id_map graph) root (_make_mermaid_id root) = _make_mermaid_id root.
Proof.
  unfold PyDict.get_default, id_map.
  induction (all_nodes graph) as [| x l IH]; simpl; [reflexivity |].
  destruct (String.eqb root x) eqn:E; [| exact IH].
  apply String.eqb_eq in E. now subst.
Qed.

End RendererMore.

(* ===================================================================== *)
(** * Facts about the string primitives *)
(* ===================================================================== *)

Module PyStrFacts.
Import PyStr.

Local Open Scope string_scope.

Lemma sapp_nil_r (s : string) : s ++ EmptyString = s.
Proof. induction s as [| c s IH]; simpl; [reflexivity | now rewrite IH]. Qed.

Lemma sapp_assoc (a b c : string) : (a ++ b) ++ c = a ++ (b ++ c).
Proof. induction a as [| x a IH]; simpl; [reflexivity | now rewrite IH]. Qed.

Lemma snoc_app (cur : string) (c : ascii) (s : string) :
  snoc cur c ++ s = cur ++ String c s.
Proof. unfold snoc. now rewrite sapp_assoc. Qed.

Lemma is_empty_snoc (cur : string) (c : ascii) : is_empty (snoc cur c) = false.
Proof. destruct cur; reflexivity. Qed.

Lemma is_empty_true (s : string) : is_empty s = true -> s = EmptyString.
Proof. destruct s; [reflexivity | discriminate]. Qed.

(** [all_chars p s]: every character of [s] satisfies [p]. *)
Fixpoint all_chars (p : ascii -> bool) (s : string) : bool :=
  match s with
  | EmptyString => true
  | String c r => p c && all_chars p r
  end.

Lemma all_chars_app (p : ascii -> bool) (a b : string) :
  all_chars p (a ++ b) = all_chars p a && all_chars p b.
Proof.
  induction a as [| c a IH]; simpl; [reflexivity |]. now rewrite IH, andb_assoc.
Qed.

Lemma all_chars_weaken (p q : ascii -> bool) (s : string) :
  (forall c, p c = true -> q c = true) -> all_chars p s = true -> all_chars q s = true.
Proof.
  intros Hpq. induction s as [| c s IH]; simpl; [reflexivity |].
  intros H. apply andb_true_iff in H as [Hc Hs]. now rewrite (Hpq c Hc), IH.
Qed.

(** ** [startswith] *)

Lemma prefix_nil (s : string) : prefix EmptyString s = true.
Proof. destruct s; reflexivity. Qed.

Lemma prefix_app (x r : string) : prefix x (x ++ r) = true.
Proof.
  induction x as [| c x IH]; simpl; [apply prefix_nil |].
  destruct (ascii_dec c c); [assumption | congruence].
Qed.

Lemma prefix_cons (c x : ascii) (p s : string) :
  prefix (String c p) (String x s) = true <-> c = x /\ prefix p s = true.
Proof.
  simpl. destruct (ascii_dec c x); split; intros H; try tauto; discriminate.
Qed.

Lemma prefix_trans (a b c : string) :
  prefix a b = true -> prefix b c = true -> prefix a c = true.
Proof.
  revert b c. induction a as [| x a IH]; intros b c Hab Hbc; [apply prefix_nil |].
  destruct b as [| y b]; [discriminate |]. destruct c as [| z c]; [discriminate |].
  apply prefix_cons in Hab as [-> Hab]. apply prefix_cons in Hbc as [-> Hbc].
  apply prefix_cons. split; [reflexivity | eapply IH; eassumption].
Qed.

Lemma prefix_app_same (x a b : string) :
  prefix a b = true -> prefix (x ++ a) (x ++ b) = true.
Proof.
  intros H. induction x as [| c x IH]; simpl; [assumption |].
  destruct (ascii_dec c c); [assumption | congruence].
Qed.

(** ** [strip] *)

Lemma lstrip_all (p : ascii -> bool) (s : string) :
  all_chars (fun c => negb (p c)) s = true -> lstrip_by p s = s.
Proof.
  destruct s as [| c s]; simpl; [reflexivity |].
  intros H. apply andb_true_iff in H as [Hc _]. apply negb_true_iff in Hc. now rewrite Hc.
Qed.

Lemma rstrip_all (p : ascii -> bool) (s : string) :
  all_chars (fun c => negb (p c)) s = true -> rstrip_by p s = s.
Proof.
  induction s as [| c s IH]; simpl; [reflexivity |].
  intros H. apply andb_true_iff in H as [Hc Hs]. apply negb_true_iff in Hc.
  rewrite (IH Hs). destruct s; [now rewrite Hc | reflexivity].
Qed.

Lemma lstrip_empty_all (p : ascii -> bool) (s : string) :
  lstrip_by p s = EmptyString <-> all_chars p s = true.
Proof.
  induction s as [| c s IH]; simpl; [tauto |].
  destruct (p c); simpl; [exact IH | split; discriminate].
Qed.

Lemma rstrip_head_kept (p : ascii -> bool) (c : ascii) (s : string) :
  p c = false -> rstrip_by p (String c s) <> EmptyString.
Proof.
  intros Hc. simpl. destruct (rstrip_by p s); [rewrite Hc |]; discriminate.
Qed.

Lemma lstrip_head (p : ascii -> bool) (s : string) :
  lstrip_by p s = EmptyString \/ exists c r, lstrip_by p s = String c r /\ p c = false.
Proof.
  induction s as [| c s IH]; simpl; [now left |].
  destruct (p c) eqn:E; [exact IH | right; now exists c, s].
Qed.

(** [s.strip()] is empty exactly when [s] is white space only. *)
Lemma strip_empty_iff (s : string) :
  strip s = EmptyString <-> all_chars isspace s = true.
Proof.
  unfold strip. rewrite <- lstrip_empty_all.
  destruct (lstrip_head isspace s) as [-> | (c & r & -> & Hc)]; [simpl; tauto |].
  split; [| discriminate]. intros H. now apply rstrip_head_kept in H.
Qed.

(** ** [split] on a one-character separator *)

Lemma split_char_piece (c : ascii) (a s cur : string) :
  all_chars (fun x => negb (Ascii.eqb x c)) a = true ->
  split_go (String c EmptyString) (a ++ String c s) 0 cur
  = (cur ++ a) :: split_go (String c EmptyString) s 0 EmptyString.
Proof.
  revert cur. induction a as [| x a IH]; intros cur Ha.
  - cbn [append split_go]. rewrite sapp_nil_r.
    assert (E : prefix (String c EmptyString) (String c s) = true)
      by (apply prefix_cons; split; [reflexivity | apply prefix_nil]).
    now rewrite E.
  - simpl in Ha. apply andb_true_iff in Ha as [Hx Ha]. apply negb_true_iff in Hx.
    cbn [append split_go].
    assert (E : prefix (String c EmptyString) (String x (a ++ String c s)) = false).
    { destruct (prefix _ _) eqn:P; [| reflexivity].
      apply prefix_cons in P as [<- _]. now rewrite Ascii.eqb_refl in Hx. }
    rewrite E, (IH _ Ha), snoc_app. reflexivity.
Qed.

Lemma split_char_last (c : ascii) (a cur : string) :
  all_chars (fun x => negb (Ascii.eqb x c)) a = true ->
  split_go (String c EmptyString) a 0 cur = [cur ++ a].
Proof.
  revert cur. induction a as [| x a IH]; intros cur Ha.
  - simpl. now rewrite sapp_nil_r.
  - simpl in Ha. apply andb_true_iff in Ha as [Hx Ha]. apply negb_true_iff in Hx.
    cbn [split_go].
    assert (E : prefix (String c EmptyString) (String x a) = false).
    { destruct (prefix _ _) eqn:P; [| reflexivity].
      apply prefix_cons in P as [<- _]. now rewrite Ascii.eqb_refl in Hx. }
    rewrite E, (IH _ Ha), snoc_app. reflexivity.
Qed.

(** ** [replace] *)

Lemma replace_go_skip (old new x rest : string) :
  replace_go old new (x ++ rest) (String.length x) = replace_go old new rest 0.
Proof. induction x as [| c x IH]; simpl; [reflexivity | exact IH]. Qed.

Lemma replace_prefix (c : ascii) (o new rest : string) :
  replace (String c o) new (String c o ++ rest)
  = new ++ replace (String c o) new rest.
Proof.
  unfold replace. cbn [append replace_go].
  change (String c (o ++ rest)) with (String c o ++ rest).
  rewrite prefix_app. cbn [String.length]. rewrite Nat.sub_1_r. cbn [Nat.pred].
  now rewrite replace_go_skip.
Qed.

(** ** [split()] on white space *)

Lemma split_ws_go_word (w s cur : string) :
  all_chars (fun c => negb (isspace c)) w = true ->
  split_ws_go (w ++ s) cur = split_ws_go s (cur ++ w).
Proof.
  revert cur. induction w as [| c w IH]; intros cur Hw.
  - simpl. now rewrite sapp_nil_r.
  - simpl in Hw. apply andb_true_iff in Hw as [Hc Hw]. apply negb_true_iff in Hc.
    cbn [append split_ws_go]. rewrite Hc, (IH _ Hw), snoc_app. reflexivity.
Qed.

Lemma split_ws_go_space (c : ascii) (s cur : string) :
  isspace c = true ->
  split_ws_go (String c s) cur
  = if is_empty cur then split_ws_go s EmptyString
    else cur :: split_ws_go s EmptyString.
Proof. intros H. cbn [split_ws_go]. now rewrite H. Qed.

Lemma split_ws_go_cons (c : ascii) (s cur : string) :
  split_ws_go (String c s) cur
  = if isspace c
    then (if is_empty cur then split_ws_go s EmptyString
          else cur :: split_ws_go s EmptyString)
    else split_ws_go s (snoc cur c).
Proof. reflexivity. Qed.

Lemma split_ws_lstrip (s : string) :
  split_ws (lstrip_by isspace s) = split_ws s.
Proof.
  unfold split_ws. induction s as [| c s IH]; [reflexivity |].
  cbn [lstrip_by]. destruct (isspace c) eqn:E; [| reflexivity].
  rewrite IH. now rewrite (split_ws_go_space c s EmptyString E).
Qed.

Lemma split_ws_go_rstrip (s : string) :
  forall cur, split_ws_go (rstrip_by isspace s) cur = split_ws_go s cur.
Proof.
  induction s as [| c s IH]; intros cur; [reflexivity |].
  cbn [rstrip_by]. destruct (rstrip_by isspace s) as [| x r] eqn:E.
  - destruct (isspace c) eqn:Hc.
    + rewrite (split_ws_go_space c s cur Hc), <- IH. reflexivity.
    + cbn [split_ws_go]. rewrite Hc, <- IH. reflexivity.
  - rewrite (split_ws_go_cons c (String x r)), (split_ws_go_cons c s), !IH.
    reflexivity.
Qed.

(** Stripping a text before splitting it on white space changes nothing. *)
Lemma split_ws_strip (s : string) : split_ws (strip s) = split_ws s.
Proof.
  unfold strip. unfold split_ws at 1. rewrite split_ws_go_rstrip.
  apply split_ws_lstrip.
Qed.

(** ** Lines of a file and [line.split(":", 1)] *)

Definition newline : ascii := ascii_of_nat 10.

Lemma lines_go_line (body s cur : string) :
  all_chars (fun c => negb (Ascii.eqb c newline)) body = true ->
  lines_go (body ++ nl ++ s) cur = (cur ++ body ++ nl) :: lines_go s EmptyString.
Proof.
  revert cur. induction body as [| c body IH]; intros cur Hb.
  - reflexivity.
  - simpl in Hb. apply andb_true_iff in Hb as [Hc Hb]. apply negb_true_iff in Hc.
    cbn [append lines_go]. fold newline. rewrite Hc, (IH _ Hb), snoc_app. reflexivity.
Qed.

Lemma split1_go_at (c : ascii) (n r cur : string) :
  all_chars (fun x => negb (Ascii.eqb x c)) n = true ->
  split1_go c (n ++ String c r) cur = [cur ++ n; r].
Proof.
  revert cur. induction n as [| x n IH]; intros cur Hn.
  - simpl. now rewrite Ascii.eqb_refl, sapp_nil_r.
  - simpl in Hn. apply andb_true_iff in Hn as [Hx Hn]. apply negb_true_iff in Hx.
    cbn [append split1_go]. rewrite Hx, (IH _ Hn), snoc_app. reflexivity.
Qed.

Lemma contains_app_r (c : ascii) (a b : string) :
  contains c b = true -> contains c (a ++ b) = true.
Proof.
  intros H. induction a as [| x a IH]; simpl; [assumption |].
  rewrite IH. apply orb_true_r.
Qed.

(** ** [split] on the blank line between two stanzas *)

Definition starts_with_newline (s : string) : bool :=
  match s with
  | String c _ => Ascii.eqb c newline
  | EmptyString => false
  end.

Lemma prefix_blank_line (x : ascii) (s : string) :
  prefix (nl ++ nl) (String x s) = Ascii.eqb x newline && starts_with_newline s.
Proof.
  change (nl ++ nl) with (String newline (String newline EmptyString)).
  destruct (Ascii.eqb x newline) eqn:Ex; cbn [andb].
  - apply Ascii.eqb_eq in Ex. subst x. destruct s as [| y s]; [reflexivity |].
    cbn [starts_with_newline]. destruct (Ascii.eqb y newline) eqn:Ey.
    + apply Ascii.eqb_eq in Ey. subst y.
      exact (prefix_app (String newline (String newline EmptyString)) s).
    + destruct (prefix _ _) eqn:P; [| reflexivity].
      apply prefix_cons in P as [_ P]. apply prefix_cons in P as [E _].
      rewrite <- E, Ascii.eqb_refl in Ey. discriminate.
  - destruct (prefix _ _) eqn:P; [| reflexivity].
    apply prefix_cons in P as [E _]. rewrite <- E, Ascii.eqb_refl in Ex. discriminate.
Qed.

Lemma split_blank_line (a b cur : string) :
  all_chars (fun c => negb (Ascii.eqb c newline)) a = true ->
  starts_with_newline b = false ->
  split_go (nl ++ nl) (a ++ nl ++ b) 0 cur = split_go (nl ++ nl) b 0 (cur ++ a ++ nl).
Proof.
  revert cur. induction a as [| x a IH]; intros cur Ha Hb.
  - change (EmptyString ++ nl ++ b) with (String newline b).
    cbn [split_go]. rewrite prefix_blank_line, Hb, andb_false_r.
    reflexivity.
  - simpl in Ha. apply andb_true_iff in Ha as [Hx Ha]. apply negb_true_iff in Hx.
    cbn [append split_go]. rewrite prefix_blank_line, Hx. cbn [andb].
    rewrite (IH _ Ha Hb), snoc_app. reflexivity.
Qed.

(** ** More on [rstrip] *)

Lemma rstrip_app_nonempty (p : ascii -> bool) (s t : string) :
  rstrip_by p t <> EmptyString -> rstrip_by p (s ++ t) = (s ++ rstrip_by p t)%string.
Proof.
  intros Hne. induction s as [| c s IH]; simpl; [reflexivity |].
  rewrite IH. destruct (s ++ rstrip_by p t)%string eqn:E; [| reflexivity].
  destruct s; simpl in E; [congruence | discriminate].
Qed.

Lemma rstrip_word_app (p : ascii -> bool) (a t : string) :
  a <> EmptyString -> all_chars (fun c => negb (p c)) a = true ->
  rstrip_by p (a ++ t) = (a ++ rstrip_by p t)%string.
Proof.
  induction a as [| x a IH]; intros Hne Ha; [congruence |].
  cbn [all_chars] in Ha. apply andb_true_iff in Ha as [Hx Ha]. apply negb_true_iff in Hx.
  cbn [append rstrip_by]. destruct a as [| y a].
  - cbn [append]. destruct (rstrip_by p t); [now rewrite Hx | reflexivity].
  - rewrite (IH ltac:(discriminate) Ha). reflexivity.
Qed.

Lemma rstrip_all_chars (q p : ascii -> bool) (t : string) :
  all_chars q t = true -> all_chars q (rstrip_by p t) = true.
Proof.
  induction t as [| c t IH]; simpl; [reflexivity |].
  intros H. apply andb_true_iff in H as [Hc Ht]. specialize (IH Ht).
  destruct (rstrip_by p t) as [| d r].
  - destruct (p c); simpl; [reflexivity | now rewrite Hc].
  - change (q c && all_chars q (String d r) = true). now rewrite Hc, IH.
Qed.

Lemma rstrip_head (p : ascii -> bool) (c : ascii) (s : string) :
  rstrip_by p (String c s) = EmptyString
  \/ exists r, rstrip_by p (String c s) = String c r.
Proof.
  simpl. destruct (rstrip_by p s) as [| d r].
  - destruct (p c); [now left | right; now exists EmptyString].
  - right. now exists (String d r).
Qed.

(** ** Occurrences of a text *)

(** [old in s] *)
Fixpoint occurs (old s : string) : bool :=
  match s with
  | EmptyString => prefix old EmptyString
  | String _ s' => prefix old s || occurs old s'
  end.

(** Nothing is replaced in a text in which [old] does not occur. *)
Lemma replace_absent (old new s : string) :
  occurs old s = false -> replace old new s = s.
Proof.
  unfold replace. induction s as [| x s IH]; intros H; [reflexivity |].
  cbn [occurs] in H. apply orb_false_iff in H as [P H].
  cbn [replace_go]. now rewrite P, (IH H).
Qed.

End PyStrFacts.

(* ===================================================================== *)
(** * The sources on well-formed input *)
(* ===================================================================== *)

Module SourceMore.
Import PyStr PyStrFacts Source.

Local Open Scope string_scope.

(** ** Names *)

(** A character of a package name: not white space, no comma, no colon. *)
Definition name_char (c : ascii) : bool :=
  negb (isspace c) && negb (Ascii.eqb c ",") && negb (Ascii.eqb c ":").

(** A name: at least one character, all of them name characters. *)
Definition word (w : string) : Prop :=
  w <> EmptyString /\ all_chars name_char w = true.

Lemma name_char_not (k c : ascii) :
  name_char k = false -> name_char c = true -> negb (Ascii.eqb c k) = true.
Proof.
  intros Hk Hc. destruct (Ascii.eqb_spec c k) as [-> | _]; [congruence | reflexivity].
Qed.

Lemma names_lack (k : ascii) (w : string) :
  name_char k = false -> all_chars name_char w = true ->
  all_chars (fun c => negb (Ascii.eqb c k)) w = true.
Proof.
  intros Hk. apply all_chars_weaken. intros c. now apply name_char_not.
Qed.

Lemma names_no_space (w : string) :
  all_chars name_char w = true -> all_chars (fun c => negb (isspace c)) w = true.
Proof.
  apply all_chars_weaken. intros c Hc. unfold name_char in Hc.
  apply andb_true_iff in Hc as [Hc _]. now apply andb_true_iff in Hc as [Hc _].
Qed.

Lemma strip_name (w : string) : all_chars name_char w = true -> strip w = w.
Proof.
  intros H. apply names_no_space in H. unfold strip.
  now rewrite (lstrip_all _ _ H), (rstrip_all _ _ H).
Qed.

(** ** [join] *)

Lemma join_cons (sep a b : string) (r : list string) :
  join sep (a :: b :: r) = a ++ sep ++ join sep (b :: r).
Proof. reflexivity. Qed.

Lemma join_head (sep a : string) (r : list string) :
  exists t, join sep (a :: r) = a ++ t.
Proof.
  destruct r as [| b r]; [exists EmptyString; simpl; now rewrite sapp_nil_r |].
  now exists (sep ++ join sep (b :: r)).
Qed.

Lemma all_chars_join (p : ascii -> bool) (sep : string) (l : list string) :
  all_chars p sep = true -> Forall (fun x => all_chars p x = true) l ->
  all_chars p (join sep l) = true.
Proof.
  intros Hsep H. induction H as [| a l Ha Hl IH]; [reflexivity |].
  destruct l as [| b l]; [exact Ha |].
  rewrite join_cons, !all_chars_app, Ha, Hsep. exact IH.
Qed.

(** A list joined with [", "] is its first element and the others, each
    after a blank, joined with [","]. *)
Lemma join_comma_blank (a : string) (r : list string) :
  join ", " (a :: r) = join "," (a :: map (String " ") r).
Proof.
  revert a. induction r as [| b r IH]; intros a; [reflexivity |].
  cbn [map]. rewrite !join_cons, IH.
  destruct r as [| c r]; reflexivity.
Qed.

Lemma split_join_comma (pieces : list string) :
  forall a cur,
    Forall (fun x => all_chars (fun c => negb (Ascii.eqb c ",")) x = true) (a :: pieces) ->
    split_go "," (join "," (a :: pieces)) 0 cur = (cur ++ a) :: pieces.
Proof.
  induction pieces as [| b ps IH]; intros a cur H.
  - apply split_char_last. now inversion H.
  - inversion H as [| ? ? Ha Hps]; subst.
    rewrite join_cons. change ("," ++ join "," (b :: ps)) with (String "," (join "," (b :: ps))).
    rewrite (split_char_piece "," a _ cur Ha), (IH b EmptyString Hps). reflexivity.
Qed.

(** ** One dependency of a [Depends] line *)

(** The element of the list comprehension of [extract_dependencies]. *)
Definition dep_name (d : string) : string :=
  strip_char "," (hd EmptyString (split " " d)).

Lemma parse_depends_eq (line : string) :
  parse_depends line
  = map dep_name (split "," (strip (replace "Depends: " EmptyString line))).
Proof. reflexivity. Qed.

(** A character of the name of a dependency: not white space, no comma.
    A colon is allowed, as in [python3:any]. *)
Definition dep_char (c : ascii) : bool :=
  negb (isspace c) && negb (Ascii.eqb c ",").

Lemma dep_char_not (k c : ascii) :
  dep_char k = false -> dep_char c = true -> negb (Ascii.eqb c k) = true.
Proof.
  intros Hk Hc. destruct (Ascii.eqb_spec c k) as [-> | _]; [congruence | reflexivity].
Qed.

Lemma dep_chars_lack (k : ascii) (w : string) :
  dep_char k = false -> all_chars dep_char w = true ->
  all_chars (fun c => negb (Ascii.eqb c k)) w = true.
Proof.
  intros Hk. apply all_chars_weaken. intros c. now apply dep_char_not.
Qed.

Lemma dep_chars_no_space (w : string) :
  all_chars dep_char w = true -> all_chars (fun c => negb (isspace c)) w = true.
Proof.
  apply all_chars_weaken. intros c Hc. unfold dep_char in Hc.
  now apply andb_true_iff in Hc as [Hc _].
Qed.

Lemma strip_comma_name (a : string) :
  all_chars dep_char a = true -> strip_char "," a = a.
Proof.
  intros H. unfold strip_char.
  assert (Hc : all_chars (fun c => negb (Ascii.eqb "," c)) a = true).
  { revert H. apply all_chars_weaken. intros c Hc.
    rewrite Ascii.eqb_sym. now apply dep_char_not. }
  now rewrite (lstrip_all _ _ Hc), (rstrip_all _ _ Hc).
Qed.

Lemma dep_name_version (a v : string) :
  all_chars dep_char a = true -> dep_name (a ++ String " " v) = a.
Proof.
  intros H. unfold dep_name, split.
  rewrite (split_char_piece " " a v EmptyString (dep_chars_lack " " a eq_refl H)).
  cbn [hd append]. now apply strip_comma_name.
Qed.

Lemma dep_name_word (a : string) : all_chars dep_char a = true -> dep_name a = a.
Proof.
  intros H. unfold dep_name, split.
  rewrite (split_char_last " " a EmptyString (dep_chars_lack " " a eq_refl H)).
  cbn [hd append]. now apply strip_comma_name.
Qed.

Lemma dep_name_blank (b : string) : dep_name (String " " b) = EmptyString.
Proof.
  unfold dep_name, split.
  change (String " " b) with (EmptyString ++ String " " b).
  now rewrite (split_char_piece " " EmptyString b EmptyString eq_refl).
Qed.

(** ** Items of a [Depends] line *)

(** A character of what follows the name inside an item: no comma, no
    newline. *)
Definition tail_char (c : ascii) : bool :=
  negb (Ascii.eqb c ",") && negb (Ascii.eqb c newline).

(** An item is a name, alone or followed by a blank and more text (a
    version constraint, alternatives); [fst] is the name and [snd] what
    follows it. *)
Definition item_ok (it : string * string) : Prop :=
  fst it <> EmptyString
  /\ all_chars dep_char (fst it) = true
  /\ (snd it = EmptyString \/ exists v, snd it = String " " v)
  /\ all_chars tail_char (snd it) = true.

Definition item_text (it : string * string) : string := fst it ++ snd it.

Lemma item_no_comma (it : string * string) :
  item_ok it -> all_chars (fun c => negb (Ascii.eqb c ",")) (item_text it) = true.
Proof.
  intros (_ & Hn & _ & Hv). unfold item_text.
  rewrite all_chars_app, (dep_chars_lack "," _ eq_refl Hn). cbn [andb].
  revert Hv. apply all_chars_weaken. intros c Hc. unfold tail_char in Hc.
  now apply andb_true_iff in Hc as [Hc _].
Qed.

Lemma item_no_newline (it : string * string) :
  item_ok it -> all_chars (fun c => negb (Ascii.eqb c newline)) (item_text it) = true.
Proof.
  intros (_ & Hn & _ & Hv). unfold item_text.
  rewrite all_chars_app, (dep_chars_lack newline _ eq_refl Hn). cbn [andb].
  revert Hv. apply all_chars_weaken. intros c Hc. unfold tail_char in Hc.
  now apply andb_true_iff in Hc as [_ Hc].
Qed.

Lemma item_nonempty (it : string * string) : item_ok it -> item_text it <> EmptyString.
Proof.
  intros (Hne & _). unfold item_text. destruct (fst it); [congruence | discriminate].
Qed.

Lemma item_head (it : string * string) (t : string) :
  item_ok it -> forall c r, item_text it ++ t = String c r -> isspace c = false.
Proof.
  intros (Hne & Hn & _) c r E. unfold item_text in E.
  destruct (fst it) as [| x w]; [congruence |]. injection E as <- _.
  simpl in Hn. apply andb_true_iff in Hn as [Hx _]. unfold dep_char in Hx.
  apply andb_true_iff in Hx as [Hx _]. now apply negb_true_iff.
Qed.

Lemma dep_name_item (it : string * string) : item_ok it -> dep_name (item_text it) = fst it.
Proof.
  intros (_ & Hn & [Hv | [v Hv]] & _); unfold item_text; rewrite Hv.
  - rewrite sapp_nil_r. now apply dep_name_word.
  - now apply dep_name_version.
Qed.

(** ** [strip] on a list of items

    [strip] can only shorten what follows the name of the last item. *)

Lemma rstrip_item (it : string * string) :
  item_ok it ->
  exists it', fst it' = fst it /\ item_ok it'
              /\ rstrip_by isspace (item_text it) = item_text it'.
Proof.
  intros (Hne & Hn & Hv & Ht).
  exists (fst it, rstrip_by isspace (snd it)). split; [reflexivity |]. split.
  - cbn [fst snd]. split; [assumption |]. split; [assumption |]. split.
    + destruct Hv as [-> | [v ->]]; [now left |].
      destruct (rstrip_head isspace " " v) as [E | [r E]]; [now left | right; now exists r].
    + now apply rstrip_all_chars.
  - unfold item_text. cbn [fst snd].
    apply rstrip_word_app; [assumption | now apply dep_chars_no_space].
Qed.

Lemma join_items_nonempty (sep : string) (it : string * string)
  (its : list (string * string)) :
  item_ok it -> join sep (map item_text (it :: its)) <> EmptyString.
Proof.
  intros H. cbn [map]. destruct (join_head sep (item_text it) (map item_text its)) as [t ->].
  pose proof (item_nonempty it H) as Hi.
  destruct (item_text it); [congruence | discriminate].
Qed.

Lemma rstrip_items (sep : string) (its : list (string * string)) :
  forall it, Forall item_ok (it :: its) ->
  exists it' its',
    map fst (it' :: its') = map fst (it :: its)
    /\ Forall item_ok (it' :: its')
    /\ rstrip_by isspace (join sep (map item_text (it :: its)))
       = join sep (map item_text (it' :: its')).
Proof.
  induction its as [| b its IH]; intros it H; inversion H as [| ? ? Hit Hits]; subst.
  - destruct (rstrip_item it Hit) as (it' & Hf & Hok & Hr).
    exists it', []. cbn [map join]. split; [now rewrite Hf |]. split; [| exact Hr].
    now constructor.
  - destruct (IH b Hits) as (b' & its' & Hf & Hok & Hr).
    exists it, (b' :: its'). split; [| split].
    + cbn [map] in *. now rewrite Hf.
    + now constructor.
    + cbn [map] in *. rewrite !join_cons, <- !sapp_assoc.
      rewrite rstrip_app_nonempty; [now rewrite Hr |].
      rewrite Hr. apply (join_items_nonempty sep b' its').
      now inversion Hok.
Qed.

Lemma strip_items (sep : string) (it : string * string) (its : list (string * string)) :
  Forall item_ok (it :: its) ->
  exists it' its',
    map fst (it' :: its') = map fst (it :: its)
    /\ Forall item_ok (it' :: its')
    /\ strip (join sep (map item_text (it :: its)))
       = join sep (map item_text (it' :: its')).
Proof.
  intros H. destruct (rstrip_items sep its it H) as (it' & its' & Hf & Hok & Hr).
  exists it', its'. split; [assumption |]. split; [assumption |].
  unfold strip. rewrite <- Hr. f_equal.
  cbn [map]. destruct (join_head sep (item_text it) (map item_text its)) as [t E].
  rewrite E. destruct (item_text it ++ t) as [| c r] eqn:E'; [reflexivity |].
  cbn [lstrip_by]. rewrite (item_head it t ltac:(now inversion H) c r E'). reflexivity.
Qed.

(** The text of the field is what is left of the line when the text
    ["Depends: "] does not occur in it again. *)
Lemma field_value (d : string) :
  occurs "Depends: " d = false ->
  replace "Depends: " EmptyString ("Depends: " ++ d) = d.
Proof.
  intros H. rewrite replace_prefix. cbn [append].
  now apply replace_absent.
Qed.

Lemma parse_items_comma (it : string * string) (its : list (string * string)) :
  Forall item_ok (it :: its) ->
  occurs "Depends: " (join "," (map item_text (it :: its))) = false ->
  parse_depends ("Depends: " ++ join "," (map item_text (it :: its)))
  = map fst (it :: its).
Proof.
  intros H Hocc. rewrite parse_depends_eq, (field_value _ Hocc).
  destruct (strip_items "," it its H) as (it' & its' & Hf & Hok & ->).
  rewrite <- Hf. inversion Hok as [| ? ? Hit' Hits']; subst.
  unfold split. cbn [map]. rewrite split_join_comma.
  - cbn [append map]. rewrite (dep_name_item it' Hit'). f_equal.
    rewrite map_map. apply map_ext_in. intros x Hx. apply dep_name_item.
    rewrite Forall_forall in Hits'. now apply Hits'.
  - change (item_text it' :: map item_text its') with (map item_text (it' :: its')).
    apply Forall_map. revert Hok. apply Forall_impl. exact item_no_comma.
Qed.

Lemma parse_items_comma_blank (it : string * string) (its : list (string * string)) :
  Forall item_ok (it :: its) ->
  occurs "Depends: " (join ", " (map item_text (it :: its))) = false ->
  parse_depends ("Depends: " ++ join ", " (map item_text (it :: its)))
  = fst it :: map (fun _ => EmptyString) its.
Proof.
  intros H Hocc. rewrite parse_depends_eq, (field_value _ Hocc).
  destruct (strip_items ", " it its H) as (it' & its' & Hf & Hok & ->).
  cbn [map] in Hf. injection Hf as Hf1 Hf2.
  inversion Hok as [| ? ? Hit' Hits']; subst.
  unfold split. cbn [map]. rewrite join_comma_blank, split_join_comma.
  - cbn [append map]. rewrite (dep_name_item it' Hit'), Hf1. f_equal.
    rewrite !map_map.
    transitivity (map (fun _ : string => EmptyString) (map fst its')).
    + rewrite map_map. apply map_ext. intros x. apply dep_name_blank.
    + rewrite Hf2, map_map. reflexivity.
  - constructor; [now apply item_no_comma |].
    apply Forall_map, Forall_map. revert Hits'. apply Forall_impl.
    intros x Hx. cbn [all_chars]. now rewrite (item_no_comma x Hx).
Qed.

End SourceMore.

(* ===================================================================== *)
(** * Stanzas of the index and lines of the fixture *)
(* ===================================================================== *)

Module FormatFacts.
Import PyStr PyStrFacts Source SourceMore.

Local Open Scope string_scope.

(** ** A stanza with a [Depends] field *)

Definition no_newline (s : string) : Prop :=
  all_chars (fun c => negb (Ascii.eqb c newline)) s = true.

(** The stanza of package [p] whose [Depends] field holds the text [d]. *)
Definition stanza (p d : string) : string :=
  "Package: " ++ p ++ nl ++ "Depends: " ++ d ++ nl.

Lemma stanza_is_one_block (p d : string) :
  no_newline p -> no_newline d -> split (nl ++ nl) (stanza p d) = [stanza p d].
Proof.
  intros Hp Hd. unfold split, stanza.
  change ("Package: " ++ p ++ nl ++ "Depends: " ++ d ++ nl)
    with (("Package: " ++ p) ++ nl ++ (("Depends: " ++ d) ++ nl ++ EmptyString)).
  rewrite split_blank_line.
  - rewrite split_blank_line; [| | reflexivity].
    + cbn [split_go]. f_equal. rewrite !sapp_assoc. reflexivity.
    + unfold no_newline in Hd. now rewrite all_chars_app, Hd.
  - unfold no_newline in Hp. now rewrite all_chars_app, Hp.
  - reflexivity.
Qed.

Lemma stanza_lines (p d : string) :
  no_newline p -> no_newline d ->
  split nl (stanza p d) = ["Package: " ++ p; "Depends: " ++ d; EmptyString].
Proof.
  intros Hp Hd. unfold split, stanza.
  change ("Package: " ++ p ++ nl ++ "Depends: " ++ d ++ nl)
    with (("Package: " ++ p) ++ String newline (("Depends: " ++ d) ++ String newline EmptyString)).
  change nl with (String newline EmptyString).
  rewrite split_char_piece, split_char_piece; [reflexivity | |].
  - unfold no_newline in Hd. now rewrite all_chars_app, Hd.
  - unfold no_newline in Hp. now rewrite all_chars_app, Hp.
Qed.

Lemma extract_stanza (p d : string) :
  no_newline p -> no_newline d ->
  extract_dependencies p (stanza p d) = Some (parse_depends ("Depends: " ++ d)).
Proof.
  intros Hp Hd. unfold extract_dependencies.
  rewrite stanza_is_one_block by assumption. cbn [find_block].
  assert (E : startswith (stanza p d) ("Package: " ++ p) = true).
  { unfold startswith, stanza.
    change ("Package: " ++ p ++ nl ++ "Depends: " ++ d ++ nl)
      with (("Package: " ++ p) ++ nl ++ "Depends: " ++ d ++ nl).
    apply prefix_app. }
  rewrite E, stanza_lines by assumption. cbn [block_dependencies].
  assert (E1 : startswith ("Package: " ++ p) "Depends: " = false) by reflexivity.
  assert (E2 : startswith ("Depends: " ++ d) "Depends: " = true)
    by (unfold startswith; apply prefix_app).
  now rewrite E1, E2.
Qed.

Lemma items_no_newline (sep : string) (its : list (string * string)) :
  no_newline sep -> Forall item_ok its ->
  no_newline (join sep (map item_text its)).
Proof.
  unfold no_newline. intros Hsep H. apply all_chars_join; [assumption |].
  apply Forall_map. revert H. apply Forall_impl. exact item_no_newline.
Qed.

(** ** The lines of a fixture *)

Fixpoint words_text (deps : list string) : string :=
  match deps with
  | [] => EmptyString
  | d :: r => " " ++ d ++ words_text r
  end.

(** The line of the fixture for one package, as in the docstring of
    [load_test_graph]: the name, a colon, and the dependencies each after
    a blank. *)
Definition fixture_line (e : string * list string) : string :=
  fst e ++ ":" ++ words_text (snd e) ++ nl.

Fixpoint fixture_text (g : DependencyGraph) : string :=
  match g with
  | [] => EmptyString
  | e :: r => fixture_line e ++ fixture_text r
  end.

Definition entry_ok (e : string * list string) : Prop :=
  all_chars name_char (fst e) = true /\ Forall word (snd e).

Lemma words_head (deps : list string) :
  exists c s, words_text deps ++ nl = String c s /\ isspace c = true.
Proof.
  destruct deps as [| d r]; [now exists newline, EmptyString |].
  exists " "%char, (d ++ words_text r ++ nl). split; [| reflexivity].
  simpl. now rewrite sapp_assoc.
Qed.

Lemma split_ws_words (deps : list string) :
  Forall word deps -> split_ws (words_text deps ++ nl) = deps.
Proof.
  unfold split_ws. intros H. induction H as [| d r [Hne Hd] Hr IH]; [reflexivity |].
  cbn [words_text]. rewrite !sapp_assoc.
  change (" " ++ d ++ words_text r ++ nl) with (String " " (d ++ words_text r ++ nl)).
  rewrite split_ws_go_cons. change (isspace " ") with true. cbn [is_empty].
  rewrite (split_ws_go_word d _ _ (names_no_space d Hd)). cbn [append].
  destruct (words_head r) as (c & s & E & Hc). rewrite E in *.
  rewrite split_ws_go_cons, Hc in *. cbn [is_empty] in IH.
  destruct d; [congruence |]. cbn [is_empty]. now rewrite IH.
Qed.

Lemma words_no_newline (deps : list string) :
  Forall word deps -> no_newline (words_text deps).
Proof.
  unfold no_newline. intros H. induction H as [| d r [_ Hd] _ IH]; [reflexivity |].
  cbn [words_text]. change (" " ++ d ++ words_text r) with (String " " (d ++ words_text r)).
  cbn [all_chars]. rewrite all_chars_app, IH, (names_lack newline d eq_refl Hd). reflexivity.
Qed.

Lemma load_fixture_line (g : DependencyGraph) (e : string * list string) :
  entry_ok e -> load_test_graph_line g (fixture_line e) = PyDict.set g (fst e) (snd e).
Proof.
  intros [Hn Hd]. unfold load_test_graph_line, fixture_line.
  change (fst e ++ ":" ++ words_text (snd e) ++ nl)
    with (fst e ++ String ":" (words_text (snd e) ++ nl)).
  assert (Hc : contains ":" (fst e ++ String ":" (words_text (snd e) ++ nl)) = true).
  { apply contains_app_r. reflexivity. }
  rewrite Hc. cbn [negb]. unfold split1.
  rewrite (split1_go_at ":" (fst e) _ EmptyString (names_lack ":" _ eq_refl Hn)).
  cbn [append]. rewrite (strip_name _ Hn). f_equal.
  destruct (is_empty (strip (words_text (snd e) ++ nl))) eqn:E.
  - apply is_empty_true in E. rewrite <- (split_ws_words _ Hd), <- split_ws_strip, E.
    reflexivity.
  - rewrite split_ws_strip. now apply split_ws_words.
Qed.

Lemma fixture_lines (g : DependencyGraph) :
  Forall entry_ok g -> file_lines (fixture_text g) = map fixture_line g.
Proof.
  unfold file_lines. intros H. induction H as [| e r [Hn Hd] Hr IH]; [reflexivity |].
  cbn [fixture_text map]. unfold fixture_line at 1.
  assert (E : (fst e ++ ":" ++ words_text (snd e) ++ nl) ++ fixture_text r
              = (fst e ++ ":" ++ words_text (snd e)) ++ nl ++ fixture_text r).
  { now rewrite !sapp_assoc. }
  rewrite E, lines_go_line, IH.
  - unfold fixture_line. now rewrite !sapp_assoc.
  - rewrite all_chars_app, (names_lack newline _ eq_refl Hn).
    change (":" ++ words_text (snd e)) with (String ":" (words_text (snd e))).
    cbn [all_chars]. now rewrite (words_no_newline _ Hd).
Qed.

Lemma load_fixture_lines (g2 : DependencyGraph) :
  forall g1, Forall entry_ok g2 -> NoDup (PyDict.keys (g1 ++ g2)%list) ->
             fold_left load_test_graph_line (map fixture_line g2) g1 = (g1 ++ g2)%list.
Proof.
  induction g2 as [| e g2 IH]; intros g1 Hok Hnd; [now rewrite app_nil_r |].
  inversion Hok as [| ? ? He Hr]; subst. cbn [map fold_left].
  rewrite (load_fixture_line g1 e He), BuilderMore.set_fresh.
  - destruct e as [n d]. cbn [fst snd]. rewrite IH; [now rewrite <- app_assoc | assumption |].
    now rewrite <- app_assoc.
  - unfold PyDict.keys in *. rewrite map_app in Hnd. cbn [map] in Hnd.
    apply NoDup_remove_2 in Hnd. intros Hin. apply Hnd, in_or_app. now left.
Qed.

End FormatFacts.

(* ===================================================================== *)
(** * The stages of [main] together *)
(* ===================================================================== *)

Module MainFacts.
Import Builder BuilderFacts BuilderMore.

(** The names of a graph: its keys and every dependency it lists. *)
Definition nodes (g : DependencyGraph) : list string :=
  PyDict.keys g ++ List.concat (PyDict.values g).

Lemma edge_target_listed (g : DependencyGraph) (n d : string) :
  SequencerFacts.edge g n d -> In d (List.concat (PyDict.values g)).
Proof. apply (SequencerFacts.edge_in_values g). Qed.

Lemma listed_is_edge_target (g : DependencyGraph) (d : string) :
  NoDup (PyDict.keys g) -> In d (List.concat (PyDict.values g)) ->
  exists k, In k (PyDict.keys g) /\ SequencerFacts.edge g k d.
Proof.
  intros Hnd Hd. apply in_concat in Hd as (l & Hl & Hd).
  unfold PyDict.values in Hl. apply in_map_iff in Hl as ([k l'] & <- & Hin).
  exists k. split.
  - unfold PyDict.keys. apply in_map_iff. now exists (k, l').
  - unfold SequencerFacts.edge, SequencerFacts.deps, PyDict.get_default.
    now rewrite (get_of_entry g k l' Hnd Hin).
Qed.

(** On a graph returned by the Builder for a depth limit of at least 1,
    what can be reached from the start package is the set of its nodes. *)
Lemma built_graph_reach (src : Source.t) (max_depth : nat) (start_pkg : string)
  (g : DependencyGraph) (log : list string) :
  run src max_depth start_pkg = Returned g log -> 1 <= max_depth ->
  forall n, clos_refl_trans string (SequencerFacts.edge g) start_pkg n <-> In n (nodes g).
Proof.
  intros H Hd n.
  destruct (BuilderRuns.run_returned _ _ _ _ _ H) as (st & Hst & Hs & <- & _).
  destruct (keys_are_visited src max_depth start_pkg st Hst) as [Hk Hnd].
  destruct (keys_graph_reachable src max_depth start_pkg st Hst) as [_ Hkeys].
  assert (Hstart : In start_pkg (PyDict.keys (result_graph st))).
  { destruct (start_pending_or_visited src max_depth start_pkg Hd st Hst) as [Hv | Hin].
    - now rewrite Hk.
    - rewrite Hs in Hin. contradiction. }
  unfold nodes. rewrite in_app_iff. split.
  - intros Hr. apply clos_rt_rtn1 in Hr. destruct Hr as [| m z He _]; [now left |].
    right. now apply (edge_target_listed _ m).
  - intros [Hn | Hn]; [now apply Hkeys |].
    rewrite <- Hk in Hnd.
    destruct (listed_is_edge_target _ _ Hnd Hn) as (k & Hkk & He).
    apply rt_trans with (y := k); [now apply Hkeys | now apply rt_step].
Qed.

Lemma stages_some (package repo_text : string) (test_mode : bool) (depth : nat)
  (rep : Main.report) :
  Main.stages package repo_text test_mode depth = Some rep ->
  exists log,
    build_graph package repo_text test_mode depth = Returned (Main.graph rep) log
    /\ Main.load_order rep = Sequencer.compute_load_order (Main.graph rep) package
    /\ Main.mermaid rep = Renderer.graph_to_mermaid (Main.graph rep) package.
Proof.
  unfold Main.stages.
  destruct (build_graph package repo_text test_mode depth) as [g log | f |];
    try discriminate.
  intros [= <-]. now exists log.
Qed.

End MainFacts.

(* ===================================================================== *)
(** * Further properties of the program *)
(* ===================================================================== *)

(** ** Sequencer *)

(** X1. When the Sequencer returns [None], a cycle of the graph can be
    reached from the start package: no acyclic graph is refused. *)
Theorem load_order_none_only_on_reachable_cycle
  (graph : DependencyGraph) (start : string) :
  Sequencer.compute_load_order graph start = None ->
  exists n, clos_refl_trans string (SequencerFacts.edge graph) start n
            /\ clos_trans string (SequencerFacts.edge graph) n n.
Proof.
  intros H. apply SequencerReach.run_none_cycle.
  destruct (SequencerFacts.run_returns graph start) as [r Hr].
  unfold Sequencer.compute_load_order in H. rewrite Hr in H. now subst r.
Qed.

Lemma load_order_none_only_on_reachable_cycle_witness :
  Sequencer.compute_load_order Fixtures.graph2 "B" = None
  /\ exists n, clos_refl_trans string (SequencerFacts.edge Fixtures.graph2) "B" n
               /\ clos_trans string (SequencerFacts.edge Fixtures.graph2) n n.
Proof.
  assert (H : Sequencer.compute_load_order Fixtures.graph2 "B" = None) by reflexivity.
  split; [exact H |].
  exact (load_order_none_only_on_reachable_cycle Fixtures.graph2 "B" H).
Defined.

(** X2. The members of a returned sequence are exactly the start package
    and the names that can be reached from it along the edges of the
    graph, keys or not. *)
Theorem load_order_lists_reachable_names
  (graph : DependencyGraph) (start : string) (seq : list string) :
  Sequencer.compute_load_order graph start = Some seq ->
  forall n, In n seq <-> clos_refl_trans string (SequencerFacts.edge graph) start n.
Proof.
  intros H. apply SequencerReach.run_some_members.
  now apply SequencerFacts.compute_load_order_run.
Qed.

Lemma load_order_lists_reachable_names_witness :
  Sequencer.compute_load_order Fixtures.graph3 "B" = Some ["B"; "C"]
  /\ (In "A" ["B"; "C"]
      <-> clos_refl_trans string (SequencerFacts.edge Fixtures.graph3) "B" "A").
Proof.
  assert (H : Sequencer.compute_load_order Fixtures.graph3 "B" = Some ["B"; "C"])
    by reflexivity.
  split; [exact H |].
  exact (load_order_lists_reachable_names Fixtures.graph3 "B" ["B"; "C"] H "A").
Defined.

(** ** Builder *)

(** X3. The start package is a key of a returned graph exactly when the
    depth limit is at least 1; with a limit of 0 the graph is empty. *)
Theorem start_package_is_key_iff_depth_positive
  (src : Source.t) (max_depth : nat) (start_pkg : string)
  (g : DependencyGraph) (log : list string) :
  Builder.run src max_depth start_pkg = Builder.Returned g log ->
  (In start_pkg (PyDict.keys g) <-> 1 <= max_depth)
  /\ (max_depth = 0 -> g = []).
Proof.
  intros H. split; [split |].
  - intros Hin. destruct max_depth as [| m]; [| lia].
    cbv in H. injection H as <- _. contradiction.
  - intros Hd. destruct (BuilderRuns.run_returned _ _ _ _ _ H) as (st & Hst & Hs & <- & _).
    destruct (BuilderMore.keys_are_visited src max_depth start_pkg st Hst) as [-> _].
    destruct (BuilderMore.start_pending_or_visited src max_depth start_pkg Hd st Hst)
      as [Hv | Hin]; [assumption |].
    rewrite Hs in Hin. contradiction.
  - intros ->. cbv in H. now injection H as <- _.
Qed.

Lemma start_package_is_key_iff_depth_positive_witness :
  Builder.run Fixtures.source3 2 "A" = Builder.Returned Fixtures.graph3 []
  /\ (In "A" (PyDict.keys Fixtures.graph3) <-> 1 <= 2).
Proof.
  assert (H : Builder.run Fixtures.source3 2 "A" = Builder.Returned Fixtures.graph3 [])
    by (vm_compute; reflexivity).
  split; [exact H |].
  exact (proj1 (start_package_is_key_iff_depth_positive
                  Fixtures.source3 2 "A" Fixtures.graph3 [] H)).
Defined.

(** X4. Every entry of the graph [build_graph] returns is what the source
    says about its key: in test mode the entry of the fixture, or the
    empty list for a name the fixture lacks; in live mode the result of
    [extract_dependencies] on the index text. *)
Theorem built_entries_are_source_answers :
  (forall start_pkg repo_text max_depth g log k v,
      Builder.build_graph start_pkg repo_text true max_depth = Builder.Returned g log ->
      PyDict.get g k = Some v ->
      v = PyDict.get_default (Source.load_test_graph repo_text) k [])
  /\ (forall start_pkg repo_text max_depth g log k v,
         Builder.build_graph start_pkg repo_text false max_depth = Builder.Returned g log ->
         PyDict.get g k = Some v ->
         Source.extract_dependencies k repo_text = Some v).
Proof.
  assert (General : forall src max_depth start_pkg g log k v,
             Source.coherent src ->
             Builder.run src max_depth start_pkg = Builder.Returned g log ->
             PyDict.get g k = Some v -> Source.answer src k = Some v).
  { intros src max_depth start_pkg g log k v Hc H Hk.
    destruct (BuilderRuns.run_returned _ _ _ _ _ H) as (st & Hst & _ & <- & _).
    exact (BuilderSource.entries_are_answers src max_depth start_pkg Hc st Hst k v Hk). }
  split; intros start_pkg repo_text max_depth g log k v H Hk.
  - pose proof (General _ _ _ _ _ k v (BuilderRuns.source_of_coherent repo_text true) H Hk) as E.
    unfold Builder.source_of in E. rewrite SourceFacts.answer_test_source in E.
    unfold Source.test_get_deps in E. now injection E as <-.
  - pose proof (General _ _ _ _ _ k v (BuilderRuns.source_of_coherent repo_text false) H Hk) as E.
    unfold Builder.source_of in E. now rewrite SourceFacts.answer_live_source in E.
Qed.

Lemma built_entries_are_source_answers_witness :
  Builder.build_graph "A" Fixtures.scenario3 true 2 = Builder.Returned Fixtures.graph3 []
  /\ PyDict.get Fixtures.graph3 "B" = Some ["C"]
  /\ ["C"] = PyDict.get_default (Source.load_test_graph Fixtures.scenario3) "B" [].
Proof.
  assert (H : Builder.build_graph "A" Fixtures.scenario3 true 2
              = Builder.Returned Fixtures.graph3 []) by (vm_compute; reflexivity).
  assert (Hk : PyDict.get Fixtures.graph3 "B" = Some ["C"]) by reflexivity.
  split; [exact H |]. split; [exact Hk |].
  exact (proj1 built_entries_are_source_answers "A" Fixtures.scenario3 2
           Fixtures.graph3 [] "B" ["C"] H Hk).
Defined.

(** X5. A run of the Builder that does not return a graph has ended with
    "not found" for a package the source does not know and that is
    reached from the start package within the depth limit; the removal
    from the on-stack set never raises. *)
Theorem builder_abort_names_unknown_reachable_package
  (src : Source.t) (max_depth : nat) (start_pkg : string) (f : Builder.failure) :
  Source.coherent src ->
  Builder.run src max_depth start_pkg = Builder.Aborted f ->
  exists pkg d,
    f = Builder.PackageNotFound pkg /\ Source.answer src pkg = None
    /\ d <= max_depth /\ BuilderFacts.reach_at src start_pkg pkg d.
Proof.
  intros Hc H. destruct (BuilderRuns.run_aborted src max_depth start_pkg Hc f H)
    as (pkg & -> & Hnone).
  destruct (BuilderFacts.loop_aborted _ _ _ _ _ H) as (st & Hst & Hab).
  destruct (BuilderMore.step_not_found_top _ _ _ _ Hab) as (depth & rest & Hs & Hd).
  destruct Hc as (ok & Hinit & Hcall).
  destruct (BuilderFacts.reach_inv_steps src max_depth ok Hinit Hcall start_pkg st Hst)
    as [_ R].
  exists pkg, depth. repeat split; try assumption.
  apply (BuilderFacts.reach_stack _ _ _ _ R). rewrite Hs. now left.
Qed.

Lemma builder_abort_names_unknown_reachable_package_witness :
  Source.coherent (Builder.source_of Examples.index_foo_only false)
  /\ Builder.run (Builder.source_of Examples.index_foo_only false) 3 "foo"
     = Builder.Aborted (Builder.PackageNotFound "libc6")
  /\ exists pkg d,
       Builder.PackageNotFound "libc6" = Builder.PackageNotFound pkg
       /\ Source.answer (Builder.source_of Examples.index_foo_only false) pkg = None
       /\ d <= 3
       /\ BuilderFacts.reach_at (Builder.source_of Examples.index_foo_only false)
            "foo" pkg d.
Proof.
  assert (Hc : Source.coherent (Builder.source_of Examples.index_foo_only false))
    by apply BuilderRuns.source_of_coherent.
  assert (H : Builder.run (Builder.source_of Examples.index_foo_only false) 3 "foo"
              = Builder.Aborted (Builder.PackageNotFound "libc6"))
    by (vm_compute; reflexivity).
  split; [exact Hc |]. split; [exact H |].
  exact (builder_abort_names_unknown_reachable_package _ 3 "foo" _ Hc H).
Defined.

(** X6. When the source does not know the start package and the depth
    limit is at least 1, the run ends at once with "not found" for the
    start package; in live mode that is the case when
    [extract_dependencies] finds no block for it. *)
Theorem unknown_start_package_aborts
  (src : Source.t) (max_depth : nat) (start_pkg : string) :
  Source.answer src start_pkg = None -> 1 <= max_depth ->
  Builder.run src max_depth start_pkg
  = Builder.Aborted (Builder.PackageNotFound start_pkg).
Proof.
  intros Ha Hd. unfold Builder.run. cbn [Builder.loop].
  unfold Builder.step, Builder.init. cbn [Builder.stack Builder.visited Builder.in_stack
                                            Builder.store].
  apply Nat.ltb_ge in Hd. rewrite Hd.
  change (PySet.mem start_pkg PySet.empty) with false. cbv beta iota zeta.
  unfold Source.answer in Ha.
  destruct (Source.get_deps src (Source.store0 src) start_pkg) as [[d c] |];
    [discriminate | reflexivity].
Qed.

Lemma unknown_start_package_aborts_witness :
  Source.answer (Builder.source_of Examples.index_foo_only false) "bar" = None
  /\ 1 <= 3
  /\ Builder.build_graph "bar" Examples.index_foo_only false 3
     = Builder.Aborted (Builder.PackageNotFound "bar").
Proof.
  assert (Ha : Source.answer (Builder.source_of Examples.index_foo_only false) "bar" = None)
    by reflexivity.
  assert (Hd : 1 <= 3) by lia.
  split; [exact Ha |]. split; [exact Hd |].
  exact (unknown_start_package_aborts
           (Builder.source_of Examples.index_foo_only false) 3 "bar" Ha Hd).
Defined.

(** X7. In live mode the memo of [get_deps] never answers a lookup of the
    Builder: at every iteration boundary it holds exactly the graph built
    so far, so the package that is looked up next, not being visited, is
    not in it. *)
Theorem live_memo_is_never_hit
  (packages_text : string) (max_depth : nat) (start_pkg : string)
  (st : Builder.state (Source.live_source packages_text)) :
  BuilderFacts.steps (Source.live_source packages_text) max_depth
    (Builder.init (Source.live_source packages_text) start_pkg) st ->
  Builder.store st = Builder.result_graph st
  /\ forall node, ~ In node (Builder.visited st) ->
                  PyDict.get (Builder.store st) node = None.
Proof.
  intros Hst.
  pose proof (BuilderSource.live_store_is_graph packages_text max_depth start_pkg st Hst) as E.
  split; [exact E |]. intros node Hv. rewrite E. apply PyDictFacts.get_none_iff.
  now rewrite (BuilderFacts.inv_keys _ _ (BuilderRuns.run_inv _ _ _ _ Hst)).
Qed.

Lemma live_memo_is_never_hit_witness :
  BuilderFacts.steps (Source.live_source Examples.index_foo_only) 3
    (Builder.init (Source.live_source Examples.index_foo_only) "foo")
    (@Builder.mk_state (Source.live_source Examples.index_foo_only)
       [("libc6", 2)] ["foo"] [] [("foo", ["libc6"])] [] [("foo", ["libc6"])])
  /\ PyDict.get [("foo", ["libc6"])] "libc6" = None.
Proof.
  assert (Hst : BuilderFacts.steps (Source.live_source Examples.index_foo_only) 3
                  (Builder.init (Source.live_source Examples.index_foo_only) "foo")
                  (@Builder.mk_state (Source.live_source Examples.index_foo_only)
                     [("libc6", 2)] ["foo"] [] [("foo", ["libc6"])] []
                     [("foo", ["libc6"])])).
  { apply Relation_Operators.rtn1_trans
      with (y := Builder.init (Source.live_source Examples.index_foo_only) "foo");
      [| apply Relation_Operators.rtn1_refl].
    vm_compute. reflexivity. }
  split; [exact Hst |].
  apply (proj2 (live_memo_is_never_hit Examples.index_foo_only 3 "foo" _ Hst) "libc6").
  simpl. intros [E | []]. discriminate.
Defined.

(** X8. No run of the Builder prints a cycle message, whatever the
    source, the start package and the depth limit, and however the run
    ends.  At every iteration boundary the on-stack set is empty and no
    cycle message has been printed; so the log of a returned graph is
    empty, and a run that ends with "not found" does so from a state with
    an empty log, in the iteration that calls [get_deps]. *)
Theorem builder_never_reports_a_cycle
  (src : Source.t) (max_depth : nat) (start_pkg : string) :
  (forall st, BuilderFacts.steps src max_depth (Builder.init src start_pkg) st ->
              Builder.in_stack st = [] /\ Builder.cycle_log st = [])
  /\ (forall g log, Builder.run src max_depth start_pkg = Builder.Returned g log ->
                    log = [])
  /\ (forall f, Builder.run src max_depth start_pkg = Builder.Aborted f ->
                exists st, BuilderFacts.steps src max_depth (Builder.init src start_pkg) st
                           /\ Builder.step src max_depth st = Builder.Abort f
                           /\ Builder.cycle_log st = []).
Proof.
  split; [| split].
  - intros st Hst. pose proof (BuilderRuns.run_inv src max_depth start_pkg st Hst) as I.
    split; [exact (BuilderFacts.inv_in_stack _ _ I) | exact (BuilderFacts.inv_log _ _ I)].
  - intros g log. apply BuilderRuns.run_log_empty.
  - intros f H. destruct (BuilderFacts.loop_aborted _ _ _ _ _ H) as (st & Hst & Hab).
    exists st. split; [exact Hst |]. split; [exact Hab |].
    exact (BuilderFacts.inv_log _ _ (BuilderRuns.run_inv src max_depth start_pkg st Hst)).
Qed.

Lemma builder_never_reports_a_cycle_witness :
  Builder.run (Source.live_source Examples.index_foo_only) 3 "foo"
  = Builder.Aborted (Builder.PackageNotFound "libc6")
  /\ exists st,
       BuilderFacts.steps (Source.live_source Examples.index_foo_only) 3
         (Builder.init (Source.live_source Examples.index_foo_only) "foo") st
       /\ Builder.step (Source.live_source Examples.index_foo_only) 3 st
          = Builder.Abort (Builder.PackageNotFound "libc6")
       /\ Builder.cycle_log st = [].
Proof.
  assert (H : Builder.run (Source.live_source Examples.index_foo_only) 3 "foo"
              = Builder.Aborted (Builder.PackageNotFound "libc6"))
    by (vm_compute; reflexivity).
  split; [exact H |].
  exact (proj2 (proj2 (builder_never_reports_a_cycle
                         (Source.live_source Examples.index_foo_only) 3 "foo")) _ H).
Defined.

(** ** The stages of [main] *)

(** X9. When the three stages report a load order for a depth limit of
    at least 1, its members are exactly the names of the graph that was
    built: its keys and every dependency it lists. *)
Theorem load_order_of_built_graph_lists_its_names
  (package repo_text : string) (test_mode : bool) (depth : nat)
  (rep : Main.report) (seq : list string) :
  Main.stages package repo_text test_mode depth = Some rep ->
  1 <= depth ->
  Main.load_order rep = Some seq ->
  forall n, In n seq <-> In n (MainFacts.nodes (Main.graph rep)).
Proof.
  intros H Hd Hseq n.
  destruct (MainFacts.stages_some _ _ _ _ _ H) as (log & Hb & Ho & _).
  rewrite Ho in Hseq.
  rewrite (SequencerReach.run_some_members _ _ _
             (SequencerFacts.compute_load_order_run _ _ _ Hseq) n).
  exact (MainFacts.built_graph_reach _ _ _ _ _ Hb Hd n).
Qed.

Lemma load_order_of_built_graph_lists_its_names_witness :
  Main.stages "A" Fixtures.scenario3 true 2
  = Some (Main.mk_report Fixtures.graph3 (Some ["A"; "B"; "C"])
            (Renderer.graph_to_mermaid Fixtures.graph3 "A"))
  /\ 1 <= 2
  /\ (In "C" ["A"; "B"; "C"] <-> In "C" (MainFacts.nodes Fixtures.graph3)).
Proof.
  assert (H : Main.stages "A" Fixtures.scenario3 true 2
              = Some (Main.mk_report Fixtures.graph3 (Some ["A"; "B"; "C"])
                        (Renderer.graph_to_mermaid Fixtures.graph3 "A")))
    by (vm_compute; reflexivity).
  assert (Hd : 1 <= 2) by lia.
  split; [exact H |]. split; [exact Hd |].
  exact (load_order_of_built_graph_lists_its_names "A" Fixtures.scenario3 true 2 _
           ["A"; "B"; "C"] H Hd eq_refl "C").
Defined.

(** X10. In test mode the three stages always end with a report: the
    Builder returns a graph for every fixture text, start package and
    depth limit, and the renderer produces a diagram for it. *)
Theorem stages_in_test_mode_always_report
  (package repo_text : string) (depth : nat) :
  exists g diagram,
    Main.stages package repo_text true depth
    = Some (Main.mk_report g (Sequencer.compute_load_order g package) (Some diagram)).
Proof.
  destruct (BuilderRuns.test_mode_returns package repo_text depth) as [g Hg].
  destruct (RendererFacts.mermaid_lines_total g package) as [ls Hls].
  exists g, (PyStr.join PyStr.nl ls).
  unfold Main.stages. rewrite Hg. unfold Renderer.graph_to_mermaid. now rewrite Hls.
Qed.

(** ** Renderer *)

(** X11. Every identifier made by [_make_mermaid_id] is not empty, is
    made of letters, digits and underscores only, and does not start
    with a digit. *)
Theorem mermaid_id_is_valid_identifier (name : string) :
  RendererMore.valid_id (Renderer._make_mermaid_id name).
Proof. apply RendererMore.make_id_valid. Qed.

(** X12. [_make_mermaid_id] leaves a name unchanged exactly when the name
    is already such an identifier, and applying it twice is the same as
    applying it once. *)
Theorem mermaid_id_fixed_points :
  (forall s, Renderer._make_mermaid_id s = s <-> RendererMore.valid_id s)
  /\ (forall name, Renderer._make_mermaid_id (Renderer._make_mermaid_id name)
                   = Renderer._make_mermaid_id name).
Proof.
  split.
  - intros s. split; [| apply RendererMore.make_id_fixed].
    intros E. rewrite <- E. apply RendererMore.make_id_valid.
  - intros name. apply RendererMore.make_id_fixed, RendererMore.make_id_valid.
Qed.

Lemma mermaid_id_fixed_points_witness :
  RendererMore.valid_id "pkg_9a" /\ Renderer._make_mermaid_id "pkg_9a" = "pkg_9a".
Proof.
  assert (H : RendererMore.valid_id "pkg_9a").
  { split; [discriminate |]. split; [reflexivity |]. intros c r E. inversion E. reflexivity. }
  split; [exact H |].
  exact (proj2 (proj1 mermaid_id_fixed_points "pkg_9a") H).
Defined.

Lemma word_prefix_differs (a id x y : string) :
  RendererMore.all_word a = true -> RendererMore.all_word id = true ->
  (a ++ " " ++ x)%string <> (id ++ "[" ++ y)%string.
Proof.
  revert id. induction a as [| c a IH]; intros [| d id] Ha Hi E; simpl in *.
  - discriminate.
  - injection E as <- _. discriminate.
  - injection E as -> _. discriminate.
  - injection E as _ E. apply andb_true_iff in Ha as [_ Ha], Hi as [_ Hi].
    exact (IH id Ha Hi E).
Qed.

Lemma edge_line_is_no_node_line (a b id name : string) :
  RendererMore.all_word a = true -> RendererMore.all_word id = true ->
  Renderer.edge_line a b <> Renderer.node_line id name.
Proof.
  intros Ha Hi E. unfold Renderer.edge_line, Renderer.node_line in E.
  cbn [String.append] in E. injection E as E.
  exact (word_prefix_differs a id ("--> " ++ b)
           (PyStr.dquote ++ name ++ PyStr.dquote ++ "]") Ha Hi E).
Qed.

(** X13. The renderer never fails.  Its text starts with the header and
    the declaration of the root under its sanitised identifier and ends
    with the two style lines; for every dependency listed under a key it
    holds the edge line between their identifiers, and the identifiers of
    both are declared. *)
Theorem diagram_declares_every_node_and_edge
  (graph : DependencyGraph) (root : string) :
  exists body,
    Renderer.mermaid_lines graph root
    = Some ("graph TD"
              :: Renderer.node_line (Renderer._make_mermaid_id root) root
              :: body
              ++ [("class " ++ Renderer._make_mermaid_id root ++ " root;")%string;
                  "classDef root fill:#f9f,stroke:#333,stroke-width:2px;"])
    /\ forall pkg deps dep,
         In (pkg, deps) graph -> In dep deps ->
         In (Renderer.edge_line (Renderer._make_mermaid_id pkg)
               (Renderer._make_mermaid_id dep)) body
         /\ (exists name,
               In (Renderer.node_line (Renderer._make_mermaid_id pkg) name)
                 (Renderer.node_line (Renderer._make_mermaid_id root) root :: body))
         /\ (exists name,
               In (Renderer.node_line (Renderer._make_mermaid_id dep) name)
                 (Renderer.node_line (Renderer._make_mermaid_id root) root :: body)).
Proof.
  unfold Renderer.mermaid_lines. rewrite RendererMore.root_id_is_sanitised.
  set (rid := Renderer._make_mermaid_id root).
  set (st0 := Renderer.mk_state ["graph TD"; Renderer.node_line rid root] [rid] []).
  assert (Hs0 : RendererMore.sound st0).
  { split; simpl.
    - intros id [<- | []]. exists root. right. now left.
    - intros a b []. }
  destruct (RendererMore.render_items_spec (Renderer.id_map graph)
              Renderer._make_mermaid_id graph) with (st := st0)
    as (st' & -> & [Hn He] & ([more Hlines] & _ & _) & Hall); [| exact Hs0 |].
  { intros pkg deps Hin. split.
    - apply RendererFacts.id_map_get, RendererFacts.in_all_nodes. left.
      unfold PyDict.keys. apply in_map_iff. now exists (pkg, deps).
    - intros d Hd. apply RendererFacts.id_map_get, RendererFacts.in_all_nodes. right.
      apply in_concat. exists deps. split; [| assumption].
      unfold PyDict.values. apply in_map_iff. now exists (pkg, deps). }
  exists more. rewrite Hlines. split; [reflexivity |].
  assert (Hrid : RendererMore.all_word rid = true)
    by apply (RendererMore.make_id_valid root).
  assert (Hedge : forall a b, RendererMore.all_word a = true ->
                              In (Renderer.edge_line a b) (Renderer.lines st') ->
                              In (Renderer.edge_line a b) more).
  { intros a b Ha Hin. rewrite Hlines in Hin. simpl in Hin.
    destruct Hin as [E | [E | Hin]]; [discriminate | | assumption].
    symmetry in E. now apply edge_line_is_no_node_line in E. }
  assert (Hnode : forall id name, In (Renderer.node_line id name) (Renderer.lines st') ->
                  In (Renderer.node_line id name) (Renderer.node_line rid root :: more)).
  { intros id name Hin. rewrite Hlines in Hin. simpl in Hin.
    destruct Hin as [E | Hin]; [discriminate | exact Hin]. }
  intros pkg deps dep Hin Hd.
  destruct (Hall pkg deps Hin) as [Hp Hdeps]. destruct (Hdeps dep Hd) as [Hdn Hde].
  split; [apply Hedge; [apply (RendererMore.make_id_valid pkg) | apply He, Hde] |]. split.
  - destruct (Hn _ Hp) as [name Hname]. exists name. now apply Hnode.
  - destruct (Hn _ Hdn) as [name Hname]. exists name. now apply Hnode.
Qed.

Lemma diagram_declares_every_node_and_edge_witness :
  exists body,
    Renderer.mermaid_lines Fixtures.graph3 "A"
    = Some ("graph TD" :: Renderer.node_line "A" "A" :: body
              ++ ["class A root;";
                  "classDef root fill:#f9f,stroke:#333,stroke-width:2px;"])
    /\ In (Renderer.edge_line "B" "C") body.
Proof.
  destruct (diagram_declares_every_node_and_edge Fixtures.graph3 "A") as (body & E & H).
  exists body. split; [exact E |].
  exact (proj1 (H "B" ["C"] "C" (or_intror (or_introl eq_refl)) (or_introl eq_refl))).
Defined.

(** ** The package index of live mode *)

(** X14. Live-mode lookup is closed under shortening the name: when the
    lookup of a name finds a stanza, the lookup of every prefix of that
    name finds one too, so it cannot end with the "not found" message. *)
Theorem prefix_of_found_name_is_found (q p packages_text : string) :
  prefix q p = true ->
  Source.extract_dependencies p packages_text <> None ->
  Source.extract_dependencies q packages_text <> None.
Proof.
  unfold Source.extract_dependencies. intros Hq.
  induction (PyStr.split (PyStr.nl ++ PyStr.nl)%string packages_text) as [| b bs IH];
    cbn [Source.find_block]; [easy |].
  destruct (PyStr.startswith b ("Package: " ++ p)%string) eqn:Ep.
  - intros _.
    assert (Eq : PyStr.startswith b ("Package: " ++ q)%string = true).
    { unfold PyStr.startswith in *.
      eapply PyStrFacts.prefix_trans; [| exact Ep].
      now apply PyStrFacts.prefix_app_same. }
    rewrite Eq. discriminate.
  - intros H. destruct (PyStr.startswith b ("Package: " ++ q)%string);
      [discriminate | now apply IH].
Qed.

Lemma prefix_of_found_name_is_found_witness :
  prefix "fo" "foo" = true
  /\ Source.extract_dependencies "foo" Examples.index_foo_only <> None
  /\ Source.extract_dependencies "fo" Examples.index_foo_only <> None.
Proof.
  assert (H1 : prefix "fo" "foo" = true) by reflexivity.
  assert (H2 : Source.extract_dependencies "foo" Examples.index_foo_only <> None)
    by (vm_compute; discriminate).
  split; [exact H1 |]. split; [exact H2 |].
  exact (prefix_of_found_name_is_found "fo" "foo" Examples.index_foo_only H1 H2).
Defined.

(** X15. A [Depends] field whose items are separated by a comma and a
    blank, as in a Debian index, yields the name of its first item only:
    every later item yields the empty string, because the text after a
    comma starts with the blank at which it is cut.  An item is a name
    (not empty, without white space or comma; a colon is allowed),
    alone or followed by a blank and any text without comma or newline;
    the name of the package has no newline, and ["Depends: "] does not
    occur inside the field, where [replace] would remove it. *)
Theorem depends_with_comma_blank_keeps_first_name_only
  (p : string) (it : string * string) (its : list (string * string)) :
  FormatFacts.no_newline p ->
  Forall SourceMore.item_ok (it :: its) ->
  PyStrFacts.occurs "Depends: "
    (PyStr.join ", " (map SourceMore.item_text (it :: its))) = false ->
  Source.extract_dependencies p
    (FormatFacts.stanza p (PyStr.join ", " (map SourceMore.item_text (it :: its))))
  = Some (fst it :: map (fun _ => EmptyString) its).
Proof.
  intros Hp H Hocc.
  rewrite FormatFacts.extract_stanza;
    [| assumption | apply FormatFacts.items_no_newline; [reflexivity | assumption]].
  now rewrite SourceMore.parse_items_comma_blank.
Qed.

Lemma examples_items_ok : Forall SourceMore.item_ok Examples.items.
Proof.
  unfold Examples.items. constructor; [| constructor; [| constructor; [| constructor]]].
  - split; [discriminate |]. split; [reflexivity |].
    split; [right; now exists "(>= 1:1.1.4)" | reflexivity].
  - split; [discriminate |]. split; [reflexivity |].
    split; [now left | reflexivity].
  - split; [discriminate |]. split; [reflexivity |].
    split; [right; now exists "(>= 2.34)" | reflexivity].
Qed.

Lemma depends_with_comma_blank_keeps_first_name_only_witness :
  FormatFacts.no_newline "foo"
  /\ Forall SourceMore.item_ok Examples.items
  /\ PyStrFacts.occurs "Depends: "
       "zlib1g (>= 1:1.1.4), python3:any, libc6 (>= 2.34)" = false
  /\ Source.extract_dependencies "foo"
       (FormatFacts.stanza "foo" "zlib1g (>= 1:1.1.4), python3:any, libc6 (>= 2.34)")
     = Some ["zlib1g"; EmptyString; EmptyString].
Proof.
  assert (H1 : FormatFacts.no_newline "foo") by reflexivity.
  assert (H2 : PyStrFacts.occurs "Depends: "
                 "zlib1g (>= 1:1.1.4), python3:any, libc6 (>= 2.34)" = false)
    by reflexivity.
  split; [exact H1 |]. split; [exact examples_items_ok |]. split; [exact H2 |].
  exact (depends_with_comma_blank_keeps_first_name_only "foo"
           ("zlib1g", " (>= 1:1.1.4)")
           [("python3:any", EmptyString); ("libc6", " (>= 2.34)")]
           H1 examples_items_ok H2).
Defined.

(** X16. A [Depends] field whose items are separated by a comma alone
    yields the name of every item, in order and without what follows
    the name.  Items, package name and field are as for X15. *)
Theorem depends_with_comma_yields_every_name
  (p : string) (it : string * string) (its : list (string * string)) :
  FormatFacts.no_newline p ->
  Forall SourceMore.item_ok (it :: its) ->
  PyStrFacts.occurs "Depends: "
    (PyStr.join "," (map SourceMore.item_text (it :: its))) = false ->
  Source.extract_dependencies p
    (FormatFacts.stanza p (PyStr.join "," (map SourceMore.item_text (it :: its))))
  = Some (map fst (it :: its)).
Proof.
  intros Hp H Hocc.
  rewrite FormatFacts.extract_stanza;
    [| assumption | apply FormatFacts.items_no_newline; [reflexivity | assumption]].
  now rewrite SourceMore.parse_items_comma.
Qed.

Lemma depends_with_comma_yields_every_name_witness :
  FormatFacts.no_newline "foo"
  /\ Forall SourceMore.item_ok Examples.items
  /\ PyStrFacts.occurs "Depends: "
       "zlib1g (>= 1:1.1.4),python3:any,libc6 (>= 2.34)" = false
  /\ Source.extract_dependencies "foo"
       (FormatFacts.stanza "foo" "zlib1g (>= 1:1.1.4),python3:any,libc6 (>= 2.34)")
     = Some ["zlib1g"; "python3:any"; "libc6"].
Proof.
  assert (H1 : FormatFacts.no_newline "foo") by reflexivity.
  assert (H2 : PyStrFacts.occurs "Depends: "
                 "zlib1g (>= 1:1.1.4),python3:any,libc6 (>= 2.34)" = false)
    by reflexivity.
  split; [exact H1 |]. split; [exact examples_items_ok |]. split; [exact H2 |].
  exact (depends_with_comma_yields_every_name "foo"
           ("zlib1g", " (>= 1:1.1.4)")
           [("python3:any", EmptyString); ("libc6", " (>= 2.34)")]
           H1 examples_items_ok H2).
Defined.

(** ** The fixture of test mode *)

(** X17. Reading a fixture back: for a graph with distinct keys whose
    names have no white space, comma or colon, the text with one line
    per key (the name, a colon, each dependency after a blank) is loaded
    as that graph, entries in the same order. *)
Theorem load_test_graph_reads_back_fixture (g : DependencyGraph) :
  Forall FormatFacts.entry_ok g ->
  NoDup (PyDict.keys g) ->
  Source.load_test_graph (FormatFacts.fixture_text g) = g.
Proof.
  intros Hok Hnd. unfold Source.load_test_graph.
  rewrite (FormatFacts.fixture_lines g Hok).
  exact (FormatFacts.load_fixture_lines g [] Hok Hnd).
Qed.

Lemma graph1_entries_ok : Forall FormatFacts.entry_ok Fixtures.graph1.
Proof.
  repeat constructor; discriminate.
Qed.

Lemma load_test_graph_reads_back_fixture_witness :
  Forall FormatFacts.entry_ok Fixtures.graph1
  /\ NoDup (PyDict.keys Fixtures.graph1)
  /\ Source.load_test_graph (FormatFacts.fixture_text Fixtures.graph1) = Fixtures.graph1.
Proof.
  assert (Hnd : NoDup (PyDict.keys Fixtures.graph1)).
  { repeat constructor; simpl; intuition discriminate. }
  split; [exact graph1_entries_ok |]. split; [exact Hnd |].
  exact (load_test_graph_reads_back_fixture Fixtures.graph1 graph1_entries_ok Hnd).
Defined.






(** ** Validation *)

(** X19. [validate_package] rejects exactly the names made of white
    space only (the empty name among them) and returns every other name
    unchanged. *)
Theorem validate_package_rejects_blank_names (name : string) :
  Validation.validate_package name
  = if PyStrFacts.all_chars PyStr.isspace name then None else Some name.
Proof.
  unfold Validation.validate_package.
  destruct (PyStrFacts.all_chars PyStr.isspace name) eqn:E.
  - apply PyStrFacts.strip_empty_iff in E. rewrite E. cbn [PyStr.is_empty].
    now rewrite orb_true_r.
  - destruct name as [| c r]; [discriminate |]. cbn [PyStr.is_empty orb].
    destruct (PyStr.is_empty (PyStr.strip (String c r))) eqn:E'; [| reflexivity].
    apply PyStrFacts.is_empty_true, PyStrFacts.strip_empty_iff in E'. congruence.
Qed.

(** ** The address of the package index *)

Lemma rstrip_all_empty (p : ascii -> bool) (t : string) :
  PyStrFacts.all_chars p t = true -> PyStr.rstrip_by p t = EmptyString.
Proof.
  induction t as [| c t IH]; simpl; [reflexivity |].
  intros H. apply andb_true_iff in H as [Hc Ht]. now rewrite (IH Ht), Hc.
Qed.

Lemma rstrip_app_drop (p : ascii -> bool) (s t : string) :
  PyStrFacts.all_chars p t = true ->
  PyStr.rstrip_by p (s ++ t)%string = PyStr.rstrip_by p s.
Proof.
  intros Ht. induction s as [| c s IH]; simpl; [now apply rstrip_all_empty |].
  now rewrite IH.
Qed.

(** X20. Slashes at the end of the repository address do not change the
    address that [download_packages] fetches. *)
Theorem packages_url_ignores_trailing_slashes (repo_url slashes : string) :
  PyStrFacts.all_chars (Ascii.eqb "/") slashes = true ->
  Download.packages_url (repo_url ++ slashes)%string = Download.packages_url repo_url.
Proof.
  intros H. unfold Download.packages_url. now rewrite rstrip_app_drop.
Qed.

Lemma packages_url_ignores_trailing_slashes_witness :
  PyStrFacts.all_chars (Ascii.eqb "/") "//" = true
  /\ Download.packages_url "http://archive.ubuntu.com/ubuntu//"
     = Download.packages_url "http://archive.ubuntu.com/ubuntu".
Proof.
  assert (H : PyStrFacts.all_chars (Ascii.eqb "/") "//" = true) by reflexivity.
  split; [exact H |].
  exact (packages_url_ignores_trailing_slashes "http://archive.ubuntu.com/ubuntu" "//" H).
Defined.

(** ** Termination *)

(** X21. The loop of [build_graph] ends in both modes, for every text,
    start package and depth limit, also when the dependency data has
    cycles: the iteration bound of the model is never exhausted. *)
Theorem build_graph_loop_ends
  (start_pkg repo_text : string) (test_mode : bool) (max_depth : nat) :
  Builder.build_graph start_pkg repo_text test_mode max_depth <> Builder.Unfinished.
Proof.
  unfold Builder.build_graph. apply BuilderRuns.run_finishes.
  apply BuilderRuns.source_of_coherent.
Qed.

(** X22. The loop of [compute_load_order] ends on every graph and start
    package, cyclic or not: the iteration bound of the model is never
    exhausted, and the function's result is the value the loop returns. *)
Theorem compute_load_order_loop_ends (graph : DependencyGraph) (start : string) :
  exists r, Sequencer.run graph start = Some r
            /\ Sequencer.compute_load_order graph start = r.
Proof.
  destruct (SequencerFacts.run_returns graph start) as [r Hr].
  exists r. split; [exact Hr |]. unfold Sequencer.compute_load_order. now rewrite Hr.
Qed.
